(** * OPUS-MAGNUM examples: the OpenGL pencil and the Qt two-window skeleton

    A shallow embedding of
    [examples/GLFW/GLFW + VSC + IMGUI - Drawing app/GLFW_VSC/main.cpp]
    (stroke capture, coordinate conversion, render pass, start-up) and of
    [MainWindow::openSecondWindow], followed by the properties the
    specification states about them.

    Floating point is modelled bit-exactly with the Standard Library's
    [SpecFloat]: [double] is IEEE-754 binary64, [float] is binary32, every
    operation rounds to nearest-even once, as a compiler without contraction
    or excess precision (FLT_EVAL_METHOD = 0) evaluates the source. *)

From Stdlib Require Import ZArith List Bool Lia String Ascii.
From Stdlib Require Import Floats.SpecFloat.
From Stdlib Require DecimalString.
From Stdlib Require Import QArith Qpower Lqa.
Import ListNotations.

Open Scope Z_scope.

(** ** IEEE-754 formats *)

(** [double]: binary64. *)
Module Double.
Definition prec : Z := 53.
Definition emax : Z := 1024.
Definition t : Type := spec_float.

Definition add : t -> t -> t := SFadd prec emax.
Definition sub : t -> t -> t := SFsub prec emax.
Definition mul : t -> t -> t := SFmul prec emax.
Definition div : t -> t -> t := SFdiv prec emax.

(** The implicit conversion [int -> double] (exact for 32-bit integers). *)
Definition of_int (z : Z) : t := binary_normalize prec emax z 0 false.

(** The literals [0.0], [1.0] and [2.0]. *)
Definition zero : t := S754_zero false.
Definition one : t := Eval vm_compute in of_int 1.
Definition two : t := Eval vm_compute in of_int 2.
End Double.

(** [float]: binary32. *)
Module Float.
Definition prec : Z := 24.
Definition emax : Z := 128.
Definition t : Type := spec_float.

Definition add : t -> t -> t := SFadd prec emax.
Definition sub : t -> t -> t := SFsub prec emax.
Definition mul : t -> t -> t := SFmul prec emax.
Definition div : t -> t -> t := SFdiv prec emax.

(** [a > b]; false as soon as one side is a NaN. *)
Definition gtb (a b : t) : bool := SFltb b a.

(** The cast [(float)d] of a double: one rounding to binary32, overflowing
    to an infinity; zeros, infinities and NaN are kept. *)
Definition of_double (d : Double.t) : t :=
  match d with
  | S754_finite s m e => binary_round prec emax s m e
  | _ => d
  end.

Definition of_int (z : Z) : t := binary_normalize prec emax z 0 false.

(** The literals [1.0f] and [-1.0f], for stating results. *)
Definition one : t := Eval vm_compute in of_int 1.
Definition minus_one : t := Eval vm_compute in of_int (-1).
End Float.

(** The 32-bit [int] of the source. *)
Definition int_range (z : Z) : Prop := - 2 ^ 31 <= z < 2 ^ 31.

(** ** The drawing program: data *)

(** [struct Vec2 { float x, y; };] *)
Module Vec2.
Record t : Type := mk { x : Float.t; y : Float.t }.
End Vec2.

(** The file-scope variables of main.cpp. *)
Record State : Type := mkState {
  g_win_w : Z;                      (* int g_win_w = 800 *)
  g_win_h : Z;                      (* int g_win_h = 600 *)
  g_mouse_down : bool;              (* is left mouse button held? *)
  g_strokes : list (list Vec2.t);   (* list of finished strokes *)
  g_current : list Vec2.t           (* current stroke being recorded *)
}.

Definition initial_state : State :=
  {| g_win_w := 800; g_win_h := 600; g_mouse_down := false;
     g_strokes := []; g_current := [] |}.

(** Constants of glfw3.h (the header is not part of the repository). *)
Definition GLFW_RELEASE : Z := 0.
Definition GLFW_PRESS : Z := 1.
Definition GLFW_MOUSE_BUTTON_LEFT : Z := 0.

(** [std::vector::back()], [None] on an empty vector. *)
Fixpoint back {A : Type} (v : list A) : option A :=
  match v with
  | [] => None
  | [a] => Some a
  | _ :: v' => back v'
  end.

Definition push_back {A : Type} (v : list A) (a : A) : list A := v ++ [a].

(** ** Coordinate conversion *)

(** [wnd_to_ndc]: window pixels (origin top-left) to NDC. It reads the
    globals [g_win_w] and [g_win_h]. *)
Definition wnd_to_ndc (st : State) (sx sy : Double.t) : Vec2.t :=
  let x := Float.of_double
             (Double.sub (Double.mul (Double.div sx (Double.of_int (g_win_w st)))
                                     Double.two)
                         Double.one) in
  let y := Float.of_double
             (Double.sub Double.one
                         (Double.mul (Double.div sy (Double.of_int (g_win_h st)))
                                     Double.two)) in
  Vec2.mk x y.

(** ** Input callbacks *)

(** The literal [1e-6f]: the binary32 number nearest to 10^-6,
    8796093 * 2^-43. *)
Definition epsilon : Float.t := S754_finite false 8796093 (-43).

(** [dx * dx + dy * dy] of cursor_pos_cb, in binary32. *)
Definition squared_distance (p last : Vec2.t) : Float.t :=
  let dx := Float.sub (Vec2.x p) (Vec2.x last) in
  let dy := Float.sub (Vec2.y p) (Vec2.y last) in
  Float.add (Float.mul dx dx) (Float.mul dy dy).

(** The test [dx * dx + dy * dy > 1e-6f]. *)
Definition exceeds_threshold (p last : Vec2.t) : bool :=
  Float.gtb (squared_distance p last) epsilon.

(** [mouse_button_cb]. [cursor] is what [glfwGetCursorPos] stores in
    [mx], [my]; it is read in the press branch only. *)
Definition mouse_button_cb (button action mods : Z)
    (cursor : Double.t * Double.t) (st : State) : State :=
  if button =? GLFW_MOUSE_BUTTON_LEFT then
    if action =? GLFW_PRESS then
      let '(mx, my) := cursor in
      {| g_win_w := g_win_w st; g_win_h := g_win_h st;
         g_mouse_down := true;
         g_strokes := g_strokes st;
         g_current := push_back [] (wnd_to_ndc st mx my) |}
    else if action =? GLFW_RELEASE then
      match g_current st with
      | [] =>
          {| g_win_w := g_win_w st; g_win_h := g_win_h st;
             g_mouse_down := false;
             g_strokes := g_strokes st;
             g_current := g_current st |}
      | _ :: _ =>
          {| g_win_w := g_win_w st; g_win_h := g_win_h st;
             g_mouse_down := false;
             g_strokes := push_back (g_strokes st) (g_current st);
             g_current := [] |}
      end
    else st
  else st.

Definition set_current (st : State) (v : list Vec2.t) : State :=
  {| g_win_w := g_win_w st; g_win_h := g_win_h st;
     g_mouse_down := g_mouse_down st;
     g_strokes := g_strokes st;
     g_current := v |}.

(** [cursor_pos_cb]. *)
Definition cursor_pos_cb (x y : Double.t) (st : State) : State :=
  if g_mouse_down st then
    let p := wnd_to_ndc st x y in
    match back (g_current st) with
    | None => set_current st (push_back (g_current st) p)
    | Some last =>
        if exceeds_threshold p last
        then set_current st (push_back (g_current st) p)
        else st
    end
  else st.

(** The OpenGL calls the model records, in the order the program issues
    them: those that set the viewport, clear the frame, select the program
    and its colour, bind the vertex array and the buffer, fill the buffer,
    draw and swap. The creation and deletion of objects, the shader calls
    and the fixed state (vertex attributes, blending, line width, clear
    colour) are not recorded. *)
Inductive gl_call : Type :=
| glViewport (x y w h : Z)
| glClear
| glUseProgram (program : Z)
| glUniform3f (loc : Z)
| glBindVertexArray (vao : Z)
| glBindBuffer (vbo : Z)
| glBufferData (bytes : Z) (data : list Vec2.t)
| glDrawArrays_LINE_STRIP (first count : Z)
| glfwSwapBuffers.

(** [framebuffer_size_cb]: the new state and the GL call it makes. *)
Definition framebuffer_size_cb (w h : Z) (st : State) : State * list gl_call :=
  ({| g_win_w := w; g_win_h := h;
      g_mouse_down := g_mouse_down st;
      g_strokes := g_strokes st;
      g_current := g_current st |},
   [glViewport 0 0 w h]).

(** ** The main loop *)

(** The body of [if (glfwGetKey(window, GLFW_KEY_C) == GLFW_PRESS)]. *)
Definition clear_canvas (st : State) : State :=
  {| g_win_w := g_win_w st; g_win_h := g_win_h st;
     g_mouse_down := g_mouse_down st;
     g_strokes := [];
     g_current := [] |}.

Definition sizeof_Vec2 : Z := 8.

(** The cast [(GLsizei)s.size()] to a 32-bit signed integer. *)
Definition GLsizei (n : Z) : Z := (n + 2 ^ 31) mod 2 ^ 32 - 2 ^ 31.

(** Upload of one stroke and its connected-line draw call. *)
Definition draw_stroke (vbo : Z) (s : list Vec2.t) : list gl_call :=
  [ glBindBuffer vbo;
    glBufferData (Z.of_nat (List.length s) * sizeof_Vec2) s;
    glDrawArrays_LINE_STRIP 0 (GLsizei (Z.of_nat (List.length s))) ].

(** [for (const auto& s : g_strokes) { if (s.size() < 2) continue; ... }] *)
Fixpoint draw_finished (vbo : Z) (strokes : list (list Vec2.t)) : list gl_call :=
  match strokes with
  | [] => []
  | s :: rest =>
      (if (List.length s <? 2)%nat then [] else draw_stroke vbo s)
      ++ draw_finished vbo rest
  end.

(** [if (g_current.size() >= 2) { ... }] *)
Definition draw_current (vbo : Z) (current : list Vec2.t) : list gl_call :=
  if (2 <=? List.length current)%nat then draw_stroke vbo current else [].

(** The two drawing steps of a frame. *)
Definition draw_pass (vbo : Z) (st : State) : list gl_call :=
  draw_finished vbo (g_strokes st) ++ draw_current vbo (g_current st).

(** The GL objects created during start-up. *)
Record GLObjects : Type := mkGL {
  program : Z; color_loc : Z; vao : Z; vbo : Z
}.

(** Everything from [glClear] to [glfwSwapBuffers] in one iteration. *)
Definition render (gl : GLObjects) (st : State) : list gl_call :=
  [glClear; glUseProgram (program gl); glUniform3f (color_loc gl);
   glBindVertexArray (vao gl)]
  ++ draw_pass (vbo gl) st
  ++ [glBindVertexArray 0; glUseProgram 0; glfwSwapBuffers].

(** What [glfwPollEvents] can deliver. *)
Inductive Event : Type :=
| MouseButton (button action mods : Z) (cursor : Double.t * Double.t)
| CursorPos (x y : Double.t)
| FramebufferSize (w h : Z)
| WindowClose.

(** The running process: globals, the window's close flag, the GL calls made. *)
Record Proc : Type := mkProc {
  globals : State;
  should_close : bool;
  gl_log : list gl_call
}.

Definition dispatch (p : Proc) (e : Event) : Proc :=
  match e with
  | MouseButton button action mods cursor =>
      {| globals := mouse_button_cb button action mods cursor (globals p);
         should_close := should_close p; gl_log := gl_log p |}
  | CursorPos x y =>
      {| globals := cursor_pos_cb x y (globals p);
         should_close := should_close p; gl_log := gl_log p |}
  | FramebufferSize w h =>
      let '(st, calls) := framebuffer_size_cb w h (globals p) in
      {| globals := st; should_close := should_close p;
         gl_log := gl_log p ++ calls |}
  | WindowClose =>
      {| globals := globals p; should_close := true; gl_log := gl_log p |}
  end.

Definition glfwPollEvents (events : list Event) (p : Proc) : Proc :=
  fold_left dispatch events p.

(** The input of one iteration: the events polled and whether
    [glfwGetKey] reports ESC and C as pressed. *)
Record Frame : Type := mkFrame {
  events : list Event;
  key_escape : bool;
  key_c : bool
}.

(** The two keyboard commands. *)
Definition key_commands (f : Frame) (p : Proc) : Proc :=
  let p1 := if key_escape f
            then {| globals := globals p; should_close := true;
                    gl_log := gl_log p |}
            else p in
  if key_c f
  then {| globals := clear_canvas (globals p1);
          should_close := should_close p1; gl_log := gl_log p1 |}
  else p1.

Definition frame_body (gl : GLObjects) (f : Frame) (p : Proc) : Proc :=
  let p1 := glfwPollEvents (events f) p in
  let p2 := key_commands f p1 in
  {| globals := globals p2; should_close := should_close p2;
     gl_log := gl_log p2 ++ render gl (globals p2) |}.

(** [while (!glfwWindowShouldClose(window)) { ... }] over the frames the
    environment supplies; the flag says whether the loop was left. *)
Fixpoint main_loop (gl : GLObjects) (frames : list Frame) (p : Proc)
  : Proc * bool :=
  if should_close p then (p, true)
  else match frames with
       | [] => (p, false)
       | f :: frames' => main_loop gl frames' (frame_body gl f p)
       end.

(** ** Start-up *)

Definition endl : string := String (ascii_of_nat 10) EmptyString.

(** The results of the library calls made during start-up. *)
Record Env : Type := mkEnv {
  glfwInit_ok : bool;
  glfwCreateWindow_ok : bool;
  gladLoadGLLoader_ok : bool;
  vertex_compile_ok : bool;   vertex_info_log : string;
  fragment_compile_ok : bool; fragment_info_log : string;
  link_ok : bool;             program_info_log : string;
  vertex_shader : Z; fragment_shader : Z;
  objects : GLObjects
}.

(** [compile_shader]: the shader name is returned whatever [ok] is. *)
Definition compile_shader (s : Z) (ok : bool) (buf : string) (cerr : string)
  : Z * string :=
  (s, if ok then cerr
      else (cerr ++ "Shader compile error: " ++ buf ++ endl)%string).

(** [create_program]. *)
Definition create_program (env : Env) (cerr : string) : Z * string :=
  let '(v, cerr1) :=
    compile_shader (vertex_shader env) (vertex_compile_ok env)
                   (vertex_info_log env) cerr in
  let '(f, cerr2) :=
    compile_shader (fragment_shader env) (fragment_compile_ok env)
                   (fragment_info_log env) cerr1 in
  let p := program (objects env) in
  (p, if link_ok env then cerr2
      else (cerr2 ++ "Program link error: " ++ program_info_log env ++ endl)%string).

(** What is observed of a run of [main]: the diagnostic stream, the value
    returned ([None] while the loop is still running), the process state, and
    whether the callbacks were ever registered. *)
Record Run : Type := mkRun {
  cerr : string;
  exit_status : option Z;
  callbacks_registered : bool;
  proc : Proc
}.

(** The process before its first GL call. *)
Definition start_proc : Proc :=
  {| globals := initial_state; should_close := false; gl_log := [] |}.

(** The recorded calls of the set-up of the vertex array and its buffer,
    made before the loop is entered: the array and the buffer are bound, an
    empty buffer is allocated, the array is unbound. *)
Definition setup_calls (gl : GLObjects) : list gl_call :=
  [glBindVertexArray (vao gl); glBindBuffer (vbo gl); glBufferData 0 [];
   glBindVertexArray 0].

(** The process as it enters the main loop. *)
Definition loop_entry (gl : GLObjects) : Proc :=
  {| globals := initial_state; should_close := false;
     gl_log := setup_calls gl |}.

(** [main]. *)
Definition main (env : Env) (frames : list Frame) : Run :=
  if negb (glfwInit_ok env) then
    {| cerr := ("Failed to init GLFW" ++ endl)%string; exit_status := Some (-1);
       callbacks_registered := false; proc := start_proc |}
  else if negb (glfwCreateWindow_ok env) then
    {| cerr := ("Failed to create window" ++ endl)%string; exit_status := Some (-1);
       callbacks_registered := false; proc := start_proc |}
  else if negb (gladLoadGLLoader_ok env) then
    {| cerr := ("Failed to initialize GLAD" ++ endl)%string; exit_status := Some (-1);
       callbacks_registered := false; proc := start_proc |}
  else
    let '(prog, err) := create_program env EmptyString in
    let gl := {| program := prog; color_loc := color_loc (objects env);
                 vao := vao (objects env); vbo := vbo (objects env) |} in
    let '(p, finished) := main_loop gl frames (loop_entry gl) in
    {| cerr := err; exit_status := if finished then Some 0 else None;
       callbacks_registered := true; proc := p |}.

(** ** The Qt skeleton *)

Module Qt.
(** A [SecondWindow] as its constructor (secondwindow.cpp) leaves it. *)
Record SecondWindow : Type := mkSecondWindow {
  windowTitle : string;
  width : Z;
  height : Z;
  label : string
}.

Definition new_SecondWindow : SecondWindow :=
  {| windowTitle := "Drugie okno"%string; width := 200; height := 100;
     label := "Hello World!"%string |}.

(** The three calls [openSecondWindow] makes on the window. *)
Inductive method : Type := show | raise | activateWindow.

(** [MainWindow] with the heap it allocates from: a pointer is an index
    into [heap], [None] is [nullptr]. *)
Record MainWindow : Type := mkMainWindow {
  secondWindow : option nat;
  heap : list SecondWindow;
  calls : list (nat * method)
}.

(** [MainWindow::MainWindow]: [secondWindow(nullptr)]. *)
Definition MainWindow_ctor : MainWindow :=
  {| secondWindow := None; heap := []; calls := [] |}.

(** [MainWindow::openSecondWindow]. *)
Definition openSecondWindow (w : MainWindow) : MainWindow :=
  let w1 :=
    match secondWindow w with
    | None =>
        {| secondWindow := Some (List.length (heap w));
           heap := heap w ++ [new_SecondWindow];
           calls := calls w |}
    | Some _ => w
    end in
  match secondWindow w1 with
  | Some sw =>
      {| secondWindow := secondWindow w1; heap := heap w1;
         calls := calls w1 ++ [(sw, show); (sw, raise); (sw, activateWindow)] |}
  | None => w1
  end.

(** [n] clicks on the button. *)
Fixpoint clicks (n : nat) (w : MainWindow) : MainWindow :=
  match n with
  | O => w
  | S n' => clicks n' (openSecondWindow w)
  end.

(** The calls one invocation makes on the window [sw]. *)
Definition brought_up (sw : nat) : list (nat * method) :=
  [(sw, show); (sw, raise); (sw, activateWindow)].
End Qt.

(** ** Vocabulary of the properties *)

(** Every pair of neighbours [q], [p] of a stroke passed the test of
    cursor_pos_cb: the squared distance of [p] from [q], as the program
    computes it, is greater than [1e-6f]. *)
Definition pairs_exceed (v : list Vec2.t) : Prop :=
  forall (i : nat) (q p : Vec2.t),
    nth_error v i = Some q ->
    nth_error v (S i) = Some p ->
    exceeds_threshold p q = true.

(** The left button goes down, the cursor moves through [moves], the button
    goes up. *)
Definition gesture (mods : Z) (down : Double.t * Double.t)
    (moves : list (Double.t * Double.t))
    (mods' : Z) (up : Double.t * Double.t) : list Event :=
  MouseButton GLFW_MOUSE_BUTTON_LEFT GLFW_PRESS mods down
  :: map (fun m => CursorPos (fst m) (snd m)) moves
  ++ [MouseButton GLFW_MOUSE_BUTTON_LEFT GLFW_RELEASE mods' up].

(** The steps the process takes once start-up has succeeded: an event is
    delivered to its callback, the keyboard commands of a frame are handled,
    a frame is rendered. *)
Inductive Op : Type :=
| Deliver (e : Event)
| Keys (f : Frame)
| Render (gl : GLObjects).

Definition perform (p : Proc) (o : Op) : Proc :=
  match o with
  | Deliver e => dispatch p e
  | Keys f => key_commands f p
  | Render gl =>
      {| globals := globals p; should_close := should_close p;
         gl_log := gl_log p ++ render gl (globals p) |}
  end.

(** The process state after the steps [ops], from the start; its log holds
    the calls of these steps. *)
Definition run (ops : list Op) : Proc := fold_left perform ops start_proc.

(** The process [p] with the calls [pre] made before those of its log. *)
Definition logged_after (pre : list gl_call) (p : Proc) : Proc :=
  {| globals := globals p; should_close := should_close p;
     gl_log := pre ++ gl_log p |}.

(** While the button is held: the finished strokes are [done], the stroke
    being recorded has between 1 and [k] points, all neighbours apart. *)
Definition recording (done : list (list Vec2.t)) (k : nat) (st : State) : Prop :=
  g_mouse_down st = true /\
  g_strokes st = done /\
  (1 <= List.length (g_current st) <= k)%nat /\
  pairs_exceed (g_current st).

(** All strokes of a state, finished or not, have their neighbours apart. *)
Definition well_spaced (st : State) : Prop :=
  pairs_exceed (g_current st) /\ Forall pairs_exceed (g_strokes st).

(** The strokes with at least two points. *)
Definition drawable (s : list Vec2.t) : bool := (2 <=? List.length s)%nat.

(** The connected-line draw calls and the vertex uploads among GL calls. *)
Definition is_draw (c : gl_call) : bool :=
  match c with glDrawArrays_LINE_STRIP _ _ => true | _ => false end.

Definition is_upload (c : gl_call) : bool :=
  match c with glBufferData _ _ => true | _ => false end.

(** The strokes a frame shows: the finished ones in order, then the one in
    progress. *)
Definition all_strokes (st : State) : list (list Vec2.t) :=
  g_strokes st ++ [g_current st].

(** ** Sample inputs *)

(** A cursor position on whole pixels. *)
Definition at_px (a b : Z) : Double.t * Double.t :=
  (Double.of_int a, Double.of_int b).

Definition press_at (a b : Z) : Event :=
  MouseButton GLFW_MOUSE_BUTTON_LEFT GLFW_PRESS 0 (at_px a b).

Definition release_at (a b : Z) : Event :=
  MouseButton GLFW_MOUSE_BUTTON_LEFT GLFW_RELEASE 0 (at_px a b).

Definition move_to (a b : Z) : Event :=
  CursorPos (Double.of_int a) (Double.of_int b).

(** The point recorded for pixel [(a, b)] in the initial 800 x 600 window. *)
Definition ndc_800x600 (a b : Z) : Vec2.t :=
  wnd_to_ndc initial_state (Double.of_int a) (Double.of_int b).

(** A frame in which C is held down and nothing else happens. *)
Definition frame_clear : Frame :=
  {| events := []; key_escape := false; key_c := true |}.

(** The environment [env] with all three shader steps succeeding. *)
Definition without_shader_errors (env : Env) : Env :=
  {| glfwInit_ok := glfwInit_ok env;
     glfwCreateWindow_ok := glfwCreateWindow_ok env;
     gladLoadGLLoader_ok := gladLoadGLLoader_ok env;
     vertex_compile_ok := true; vertex_info_log := vertex_info_log env;
     fragment_compile_ok := true; fragment_info_log := fragment_info_log env;
     link_ok := true; program_info_log := program_info_log env;
     vertex_shader := vertex_shader env;
     fragment_shader := fragment_shader env;
     objects := objects env |}.

(** What create_program writes to the diagnostic stream. *)
Definition shader_diagnostics (env : Env) : string :=
  ((if vertex_compile_ok env then EmptyString
    else "Shader compile error: " ++ vertex_info_log env ++ endl)
   ++ (if fragment_compile_ok env then EmptyString
       else "Shader compile error: " ++ fragment_info_log env ++ endl)
   ++ (if link_ok env then EmptyString
       else "Program link error: " ++ program_info_log env ++ endl))%string.

(** A frame in which ESC is held down. *)
Definition frame_escape : Frame :=
  {| events := []; key_escape := true; key_c := false |}.

(** Environments for the three kinds of start-up trouble. *)
Definition env_ok : Env :=
  {| glfwInit_ok := true; glfwCreateWindow_ok := true;
     gladLoadGLLoader_ok := true;
     vertex_compile_ok := true; vertex_info_log := EmptyString;
     fragment_compile_ok := true; fragment_info_log := EmptyString;
     link_ok := true; program_info_log := EmptyString;
     vertex_shader := 1; fragment_shader := 2;
     objects := {| program := 3; color_loc := 0; vao := 1; vbo := 1 |} |}.

Definition env_no_window : Env :=
  {| glfwInit_ok := true; glfwCreateWindow_ok := false;
     gladLoadGLLoader_ok := true;
     vertex_compile_ok := true; vertex_info_log := EmptyString;
     fragment_compile_ok := true; fragment_info_log := EmptyString;
     link_ok := true; program_info_log := EmptyString;
     vertex_shader := 1; fragment_shader := 2;
     objects := {| program := 3; color_loc := 0; vao := 1; vbo := 1 |} |}.

Definition env_no_glad : Env :=
  {| glfwInit_ok := true; glfwCreateWindow_ok := true;
     gladLoadGLLoader_ok := false;
     vertex_compile_ok := true; vertex_info_log := EmptyString;
     fragment_compile_ok := true; fragment_info_log := EmptyString;
     link_ok := true; program_info_log := EmptyString;
     vertex_shader := 1; fragment_shader := 2;
     objects := {| program := 3; color_loc := 0; vao := 1; vbo := 1 |} |}.

Definition env_bad_shaders : Env :=
  {| glfwInit_ok := true; glfwCreateWindow_ok := true;
     gladLoadGLLoader_ok := true;
     vertex_compile_ok := false; vertex_info_log := "syntax error"%string;
     fragment_compile_ok := true; fragment_info_log := EmptyString;
     link_ok := false; program_info_log := "no vertex stage"%string;
     vertex_shader := 1; fragment_shader := 2;
     objects := {| program := 3; color_loc := -1; vao := 1; vbo := 1 |} |}.

(** ** Further vocabulary *)

(** The width and height of the last resize event among [ops]; the initial
    800 x 600 when there is none. *)
Definition viewport_after (ops : list Op) : Z * Z :=
  fold_left (fun d o =>
               match o with
               | Deliver (FramebufferSize w h) => (w, h)
               | _ => d
               end) ops (800, 600).

(** The steps that clear the canvas. *)
Definition is_clear (o : Op) : bool :=
  match o with
  | Keys f => key_c f
  | _ => false
  end.

(** The releases of the left button. *)
Definition is_left_release (o : Op) : bool :=
  match o with
  | Deliver (MouseButton button action _ _) =>
      (button =? GLFW_MOUSE_BUTTON_LEFT) && negb (action =? GLFW_PRESS)
      && (action =? GLFW_RELEASE)
  | _ => false
  end.

(** [s] is [l] with some elements left out, the order kept. *)
Inductive subsequence {A : Type} : list A -> list A -> Prop :=
| subsequence_nil : subsequence [] []
| subsequence_skip : forall a s l, subsequence s l -> subsequence s (a :: l)
| subsequence_keep : forall a s l,
    subsequence s l -> subsequence (a :: s) (a :: l).

(** A point with a NaN coordinate. *)
Definition is_nan (f : spec_float) : bool :=
  match f with S754_nan => true | _ => false end.

Definition has_nan (p : Vec2.t) : bool :=
  is_nan (Vec2.x p) || is_nan (Vec2.y p).

(** A frame that asks to leave the loop: ESC is down, or the window was
    asked to close. *)
Definition is_close (e : Event) : bool :=
  match e with WindowClose => true | _ => false end.

Definition closing (f : Frame) : bool :=
  key_escape f || existsb is_close (events f).

(** With the button up the stroke in progress is empty. *)
Definition idle_empty (st : State) : Prop :=
  g_mouse_down st = false -> g_current st = [].

(** During a gesture begun in [st0]: the viewport and the finished strokes
    are those of [st0], the stroke in progress starts with [first] and goes
    on with some of the points [seen], in their order. *)
Definition tracing (st0 : State) (first : Vec2.t) (seen : list Vec2.t)
    (st : State) : Prop :=
  g_mouse_down st = true /\
  g_win_w st = g_win_w st0 /\ g_win_h st = g_win_h st0 /\
  g_strokes st = g_strokes st0 /\
  exists rest : list Vec2.t,
    g_current st = first :: rest /\ subsequence rest seen.

(** An environment in which GLFW itself cannot be initialised. *)
Definition env_no_glfw : Env :=
  {| glfwInit_ok := false; glfwCreateWindow_ok := true;
     gladLoadGLLoader_ok := true;
     vertex_compile_ok := true; vertex_info_log := EmptyString;
     fragment_compile_ok := true; fragment_info_log := EmptyString;
     link_ok := true; program_info_log := EmptyString;
     vertex_shader := 1; fragment_shader := 2;
     objects := {| program := 3; color_loc := 0; vao := 1; vbo := 1 |} |}.

(** The GL calls of a frame in which no stroke is drawn. *)
Definition empty_frame_calls (gl : GLObjects) : list gl_call :=
  [glClear; glUseProgram (program gl); glUniform3f (color_loc gl);
   glBindVertexArray (vao gl);
   glBindVertexArray 0; glUseProgram 0; glfwSwapBuffers].

(** The pointer of a main window is null or refers to an allocated
    [SecondWindow]. *)
Definition pointer_valid (w : Qt.MainWindow) : Prop :=
  forall sw : nat,
    Qt.secondWindow w = Some sw ->
    nth_error (Qt.heap w) sw = Some Qt.new_SecondWindow.

(** ** The printer of numeric limits (numericlimits.cpp) *)

Module NumericLimits.
(** What [sizeof(T)] and [numeric_limits<T>] give for a type [T], and the
    text [operator<<] prints for its smallest and its largest value. *)
Record type_traits : Type := mkTraits {
  sizeof : nat;
  digits : nat;
  is_signed : bool;
  min_text : string;
  max_text : string
}.

Fixpoint spaces (n : nat) : string :=
  match n with
  | O => EmptyString
  | S k => String " "%char (spaces k)
  end.

(** [cout << setw(n) << s]: [s] right-aligned in [n] columns, in full when
    it is longer; the width applies to this one output only. *)
Definition setw (n : nat) (s : string) : string :=
  (spaces (n - String.length s) ++ s)%string.

(** [cout << n] for an unsigned integer. *)
Definition decimal (n : nat) : string :=
  DecimalString.NilZero.string_of_uint (Nat.to_uint n).

(** [info_of_type<T>(opis)]: the line sent to [cout]. *)
Definition info_of_type (T : type_traits) (opis : string) : string :=
  (setw 18 opis ++ ":"
   ++ setw 2 (decimal (sizeof T)) ++ "|"
   ++ setw 2 (decimal (digits T))
   ++ (if is_signed T then "|sign|" else "|withoutsign|")
   ++ "[" ++ min_text T ++ "," ++ max_text T ++ "]" ++ endl)%string.

(** The fundamental types [main] asks about; [signed short int] is
    [short int], and so on. *)
Record platform : Type := mkPlatform {
  short_int : type_traits;
  unsigned_short_int : type_traits;
  int : type_traits;
  unsigned_int : type_traits;
  long_int : type_traits;
  unsigned_long_int : type_traits;
  char : type_traits;
  float : type_traits;
  double : type_traits
}.

(** [main]: everything sent to [cout]. *)
Definition main (P : platform) : string :=
  ("Printing info about types:" ++ endl ++ endl
   ++ info_of_type (short_int P) "short int"
   ++ info_of_type (short_int P) "signed short int"
   ++ info_of_type (unsigned_short_int P) "unsigned short int"
   ++ endl
   ++ info_of_type (int P) "int"
   ++ info_of_type (int P) "signed int"
   ++ info_of_type (unsigned_int P) "unsigned int"
   ++ endl
   ++ info_of_type (long_int P) "long int"
   ++ info_of_type (long_int P) "signed long int"
   ++ info_of_type (unsigned_long_int P) "unsigned long int"
   ++ endl
   ++ info_of_type (char P) "char"
   ++ info_of_type (float P) "float"
   ++ info_of_type (double P) "double"
   ++ endl)%string.

(** The column of the colon in a line for the description [opis]. *)
Definition colon_column (opis : string) : nat :=
  Nat.max 18 (String.length opis).

(** The integer types of an LP64 platform. *)
Definition lp64_short : type_traits :=
  {| sizeof := 2; digits := 15; is_signed := true;
     min_text := "-32768"; max_text := "32767" |}.

Definition lp64_unsigned_long : type_traits :=
  {| sizeof := 8; digits := 64; is_signed := false;
     min_text := "0"; max_text := "18446744073709551615" |}.
End NumericLimits.

(** ** Distances, rounded and exact *)

(** The squared distance of [p] from [q] evaluated in binary32, every
    subtraction, product and sum rounded to nearest-even. *)
Definition binary32_squared_distance (p q : Vec2.t) : spec_float :=
  SFadd 24 128
    (SFmul 24 128 (SFsub 24 128 (Vec2.x p) (Vec2.x q))
                  (SFsub 24 128 (Vec2.x p) (Vec2.x q)))
    (SFmul 24 128 (SFsub 24 128 (Vec2.y p) (Vec2.y q))
                  (SFsub 24 128 (Vec2.y p) (Vec2.y q))).

(** The threshold: 1 / 1000000 rounded to binary32. *)
Definition threshold : spec_float :=
  Eval vm_compute in
    SFdiv 24 128 (binary_normalize 24 128 1 0 false)
                 (binary_normalize 24 128 1000000 0 false).

(** [p] is apart from [q]: the binary32 squared distance is greater than the
    threshold. *)
Definition apart (p q : Vec2.t) : Prop :=
  SFltb threshold (binary32_squared_distance p q) = true.

(** All neighbours of a stroke are apart. *)
Definition pairs_apart (v : list Vec2.t) : Prop :=
  forall (i : nat) (q p : Vec2.t),
    nth_error v i = Some q ->
    nth_error v (S i) = Some p ->
    apart p q.

(** The rational number a finite float stands for. *)
Definition Q_of_float (f : spec_float) : option Q :=
  match f with
  | S754_zero _ => Some 0%Q
  | S754_finite s m e =>
      Some (inject_Z (cond_Zopp s (Zpos m)) * Qpower 2 e)%Q
  | _ => None
  end.

(** The squared distance of two points with finite coordinates, without any
    rounding. *)
Definition exact_squared_distance (p q : Vec2.t) : option Q :=
  match Q_of_float (Vec2.x p), Q_of_float (Vec2.y p),
        Q_of_float (Vec2.x q), Q_of_float (Vec2.y q) with
  | Some px, Some py, Some qx, Some qy =>
      Some ((px - qx) * (px - qx) + (py - qy) * (py - qy))%Q
  | _, _, _, _ => None
  end.

(** The exact squared distance is greater than the threshold. *)
Definition exactly_apart (p q : Vec2.t) : Prop :=
  match exact_squared_distance p q, Q_of_float threshold with
  | Some d, Some t => (t < d)%Q
  | _, _ => False
  end.

(** Neighbours with finite coordinates are at different places. *)
Definition pairs_distinct (v : list Vec2.t) : Prop :=
  forall (i : nat) (q p : Vec2.t) (d : Q),
    nth_error v i = Some q ->
    nth_error v (S i) = Some p ->
    exact_squared_distance p q = Some d ->
    (0 < d)%Q.

(** A cursor position whose point is, after rounding, apart from the point
    of pixel (500, 300), and exactly is not. *)
Definition near_500_300 : Double.t * Double.t :=
  (S754_finite false 8789180913977336 (-44),
   S754_finite false 5276666392287195 (-44)).

(** * Properties *)

(** ** Vectors *)

Lemma back_push_back {A : Type} (v : list A) (a : A) :
  back (push_back v a) = Some a.
Proof.
  unfold push_back.
  induction v as [|b v IH]; [reflexivity|].
  simpl. destruct (v ++ [a]) eqn:E.
  - now destruct v.
  - exact IH.
Qed.

Lemma back_None {A : Type} (v : list A) : back v = None -> v = [].
Proof.
  induction v as [|a v IH]; [reflexivity|].
  simpl. destruct v; [discriminate|].
  intros H. specialize (IH H). discriminate.
Qed.

Lemma back_Some {A : Type} (v : list A) (a : A) :
  back v = Some a -> exists v', v = v' ++ [a].
Proof.
  induction v as [|b v IH]; [discriminate|].
  simpl. destruct v as [|c v].
  - intros [= ->]. now exists [].
  - intros H. destruct (IH H) as [v' Hv']. exists (b :: v').
    simpl. now rewrite Hv'.
Qed.

Lemma pairs_exceed_nil : pairs_exceed [].
Proof. intros [|i] q p H; discriminate. Qed.

Lemma pairs_exceed_one (a : Vec2.t) : pairs_exceed [a].
Proof.
  intros [|i] q p H1 H2; simpl in *; [discriminate|].
  destruct i; discriminate.
Qed.

Lemma pairs_exceed_push_back (v : list Vec2.t) (last p : Vec2.t) :
  pairs_exceed v ->
  back v = Some last ->
  exceeds_threshold p last = true ->
  pairs_exceed (push_back v p).
Proof.
  intros Hv Hb Hp i q' p' Hq' Hp'.
  destruct (back_Some _ _ Hb) as [v' ->].
  unfold push_back in *.
  destruct (Nat.lt_ge_cases (S i) (List.length (v' ++ [last]))) as [Hlt|Hge].
  - rewrite nth_error_app1 in Hq', Hp' by lia.
    now apply (Hv i).
  - assert (Hi : i = List.length v').
    { assert (nth_error ((v' ++ [last]) ++ [p]) (S i) <> None) as Hn
        by congruence.
      apply nth_error_Some in Hn.
      repeat rewrite length_app in Hn. rewrite length_app in Hge.
      simpl in Hn, Hge. lia. }
    subst i.
    rewrite nth_error_app1 in Hq' by (rewrite length_app; simpl; lia).
    rewrite nth_error_app2 in Hq' by lia.
    rewrite Nat.sub_diag in Hq'. simpl in Hq'. injection Hq' as <-.
    rewrite nth_error_app2 in Hp' by (rewrite length_app; simpl; lia).
    rewrite length_app in Hp'.
    replace (S (List.length v') - (List.length v' + List.length [last]))%nat
      with 0%nat in Hp' by (change (List.length [last]) with 1%nat; lia).
    simpl in Hp'. injection Hp' as <-. exact Hp.
Qed.

(** ** Rounded and exact distances *)

Lemma exceeds_threshold_apart (p q : Vec2.t) :
  exceeds_threshold p q = true <-> apart p q.
Proof. reflexivity. Qed.

Lemma pairs_exceed_apart (v : list Vec2.t) :
  pairs_exceed v -> pairs_apart v.
Proof.
  intros H i q p Hq Hp. apply exceeds_threshold_apart. now apply (H i).
Qed.

Lemma iter_xO_pow (m d : positive) :
  Zpos (Pos.iter xO m d) = Zpos m * 2 ^ Zpos d.
Proof.
  induction d as [|d IH] using Pos.peano_ind.
  - simpl. lia.
  - rewrite Pos.iter_succ, Pos2Z.inj_succ, Z.pow_succ_r by lia.
    rewrite Pos2Z.inj_xO, IH. lia.
Qed.

Lemma shl_align_exact (m : positive) (e ez : Z) :
  ez <= e -> Zpos (fst (shl_align m e ez)) = Zpos m * 2 ^ (e - ez).
Proof.
  intros H. unfold shl_align.
  destruct (ez - e) as [|d|d] eqn:E; try lia; cbn [fst].
  - replace (e - ez) with 0 by lia. lia.
  - replace (e - ez) with (Zpos d) by lia. apply iter_xO_pow.
Qed.

Lemma Qpower_2_nonzero (e : Z) : ~ (Qpower 2 e == 0)%Q.
Proof. apply Qpower_not_0. discriminate. Qed.

Lemma Qpower_2_split (e ez : Z) :
  ez <= e ->
  (Qpower 2 e == inject_Z (2 ^ (e - ez)) * Qpower 2 ez)%Q.
Proof.
  intros H. rewrite Zpower_Qpower by lia.
  rewrite <- Qpower_plus by discriminate.
  now replace (e - ez + ez) with e by lia.
Qed.

(** The value of a finite float as an integer multiple of [2 ^ ez]. *)
Lemma finite_value_aligned (s : bool) (m : positive) (e ez : Z) :
  ez <= e ->
  (inject_Z (cond_Zopp s (Zpos m)) * Qpower 2 e
   == inject_Z (cond_Zopp s (Zpos (fst (shl_align m e ez)))) * Qpower 2 ez)%Q.
Proof.
  intros H. rewrite (Qpower_2_split e ez H), shl_align_exact by exact H.
  rewrite Qmult_assoc, <- inject_Z_mult.
  now destruct s; cbn [cond_Zopp]; rewrite ?Z.mul_opp_l.
Qed.

Lemma finite_value_nonzero (s : bool) (m : positive) (e : Z) :
  ~ (inject_Z (cond_Zopp s (Zpos m)) * Qpower 2 e == 0)%Q.
Proof.
  intros H. apply Qmult_integral in H. destruct H as [H|H].
  - change 0%Q with (inject_Z 0) in H.
    apply (proj1 (inject_Z_injective _ _)) in H.
    destruct s; discriminate.
  - now apply Qpower_2_nonzero in H.
Qed.

Lemma float_sub_same_value (a b : Float.t) (va vb : Q) :
  Q_of_float a = Some va -> Q_of_float b = Some vb -> (va == vb)%Q ->
  exists s : bool, SFsub 24 128 a b = S754_zero s.
Proof.
  destruct a as [sa|sa| |sa ma ea]; try discriminate;
    destruct b as [sb|sb| |sb mb eb]; try discriminate;
    cbn [Q_of_float]; intros [= <-] [= <-] H.
  - destruct sa, sb; eexists; reflexivity.
  - symmetry in H. now apply finite_value_nonzero in H.
  - now apply finite_value_nonzero in H.
  - exists false. cbn [SFsub].
    rewrite (finite_value_aligned sa ma ea (Z.min ea eb)) in H by lia.
    rewrite (finite_value_aligned sb mb eb (Z.min ea eb)) in H by lia.
    apply (proj1 (Qmult_inj_r _ _ _ (Qpower_2_nonzero _))) in H.
    apply (proj1 (inject_Z_injective _ _)) in H.
    rewrite H, Z.sub_diag. reflexivity.
Qed.

Lemma Qsquare_nonneg (a : Q) : (0 <= a * a)%Q.
Proof.
  destruct (Qlt_le_dec a 0) as [H|H].
  - setoid_replace (a * a)%Q with ((- a) * (- a))%Q by ring.
    apply Qmult_le_0_compat; lra.
  - apply Qmult_le_0_compat; lra.
Qed.

Lemma apart_distinct (p q : Vec2.t) (d : Q) :
  apart p q -> exact_squared_distance p q = Some d -> (0 < d)%Q.
Proof.
  unfold apart, binary32_squared_distance, exact_squared_distance.
  intros Ha Hd.
  destruct (Q_of_float (Vec2.x p)) as [px|] eqn:Epx; [|discriminate].
  destruct (Q_of_float (Vec2.y p)) as [py|] eqn:Epy; [|discriminate].
  destruct (Q_of_float (Vec2.x q)) as [qx|] eqn:Eqx; [|discriminate].
  destruct (Q_of_float (Vec2.y q)) as [qy|] eqn:Eqy; [|discriminate].
  injection Hd as <-.
  destruct (Qlt_le_dec 0 ((px - qx) * (px - qx) + (py - qy) * (py - qy)))
    as [Hpos|Hle]; [exact Hpos|exfalso].
  pose proof (Qsquare_nonneg (px - qx)) as Hx2.
  pose proof (Qsquare_nonneg (py - qy)) as Hy2.
  assert (Hx0 : ((px - qx) * (px - qx) == 0)%Q) by lra.
  assert (Hy0 : ((py - qy) * (py - qy) == 0)%Q) by lra.
  assert (Hx : (px == qx)%Q)
    by (apply Qmult_integral in Hx0; destruct Hx0; lra).
  assert (Hy : (py == qy)%Q)
    by (apply Qmult_integral in Hy0; destruct Hy0; lra).
  destruct (float_sub_same_value _ _ _ _ Epx Eqx Hx) as [sx Ex].
  destruct (float_sub_same_value _ _ _ _ Epy Eqy Hy) as [sy Ey].
  rewrite Ex, Ey in Ha. destruct sx, sy; discriminate.
Qed.

Lemma pairs_apart_distinct (v : list Vec2.t) :
  pairs_apart v -> pairs_distinct v.
Proof.
  intros H i q p d Hq Hp Hd. exact (apart_distinct p q d (H i q p Hq Hp) Hd).
Qed.

(** ** One gesture *)

Lemma press_recording (mods : Z) (cursor : Double.t * Double.t) (st : State) :
  recording (g_strokes st) 1
    (mouse_button_cb GLFW_MOUSE_BUTTON_LEFT GLFW_PRESS mods cursor st).
Proof.
  destruct cursor as [mx my]. unfold recording. simpl.
  repeat split; try lia. apply pairs_exceed_one.
Qed.

Lemma move_recording (done : list (list Vec2.t)) (k : nat) (x y : Double.t)
    (st : State) :
  recording done k st -> recording done (S k) (cursor_pos_cb x y st).
Proof.
  intros (Hd & Hs & Hl & Hp). unfold cursor_pos_cb. rewrite Hd.
  destruct (back (g_current st)) as [last|] eqn:Hb.
  - destruct (exceeds_threshold (wnd_to_ndc st x y) last) eqn:Hx.
    + unfold recording. simpl. repeat split; try assumption.
      * unfold push_back. rewrite length_app. simpl. lia.
      * unfold push_back. rewrite length_app. simpl. lia.
      * now apply pairs_exceed_push_back with (last := last).
    + unfold recording. repeat split; try assumption; lia.
  - apply back_None in Hb. rewrite Hb in Hl. simpl in Hl. lia.
Qed.

Lemma moves_recording (done : list (list Vec2.t))
    (moves : list (Double.t * Double.t)) :
  forall (k : nat) (p : Proc),
    recording done k (globals p) ->
    recording done (k + List.length moves)
      (globals (glfwPollEvents
                  (map (fun m => CursorPos (fst m) (snd m)) moves) p)).
Proof.
  induction moves as [|m moves IH]; intros k p H.
  - simpl. now rewrite Nat.add_0_r.
  - simpl. replace (k + S (List.length moves))%nat
      with (S k + List.length moves)%nat by lia.
    apply IH. simpl. now apply move_recording.
Qed.

Lemma release_recording (done : list (list Vec2.t)) (k : nat) (mods : Z)
    (cursor : Double.t * Double.t) (st : State) :
  recording done k st ->
  let st' := mouse_button_cb GLFW_MOUSE_BUTTON_LEFT GLFW_RELEASE mods cursor st in
  g_strokes st' = done ++ [g_current st] /\ g_current st' = [] /\
  g_mouse_down st' = false.
Proof.
  intros (Hd & Hs & Hl & Hp). simpl.
  unfold mouse_button_cb. simpl.
  destruct (g_current st) as [|a v] eqn:Hc; [simpl in Hl; lia|].
  simpl. unfold push_back. now rewrite Hs.
Qed.

Lemma gesture_recorded
    (p : Proc) (mods : Z) (down : Double.t * Double.t)
    (moves : list (Double.t * Double.t)) (mods' : Z) (up : Double.t * Double.t) :
  let p' := glfwPollEvents (gesture mods down moves mods' up) p in
  exists stroke : list Vec2.t,
    g_strokes (globals p') = g_strokes (globals p) ++ [stroke] /\
    g_current (globals p') = [] /\
    (1 <= List.length stroke <= List.length moves + 1)%nat /\
    pairs_exceed stroke.
Proof.
  unfold gesture, glfwPollEvents. simpl. rewrite fold_left_app. simpl.
  set (p1 := dispatch p (MouseButton GLFW_MOUSE_BUTTON_LEFT GLFW_PRESS mods down)).
  assert (H1 : recording (g_strokes (globals p)) 1 (globals p1))
    by apply press_recording.
  pose proof (moves_recording _ moves _ _ H1) as H2.
  unfold glfwPollEvents in H2.
  set (p2 := fold_left dispatch
               (map (fun m => CursorPos (fst m) (snd m)) moves) p1) in *.
  destruct (release_recording _ _ mods' up _ H2) as (Hs & Hc & _).
  exists (g_current (globals p2)).
  destruct H2 as (_ & _ & Hl & Hp).
  repeat split; try assumption; lia.
Qed.

(** C1, as the program has it. A left-button press, [N] cursor moves and
    the release append exactly one stroke to the finished strokes; it has
    between 1 and [N + 1] points, and every pair of neighbouring points in
    it (the first pair included) is apart: its squared distance evaluated in
    binary32, the two differences, the two squares and the sum each rounded
    to nearest-even, is greater than 1e-6f. Neighbours with finite
    coordinates are at different places: their exact squared distance is
    positive. This holds from every state of the process. *)
Theorem gesture_appends_one_stroke
    (p : Proc) (mods : Z) (down : Double.t * Double.t)
    (moves : list (Double.t * Double.t)) (mods' : Z) (up : Double.t * Double.t) :
  let p' := glfwPollEvents (gesture mods down moves mods' up) p in
  exists stroke : list Vec2.t,
    g_strokes (globals p') = g_strokes (globals p) ++ [stroke] /\
    g_current (globals p') = [] /\
    (1 <= List.length stroke <= List.length moves + 1)%nat /\
    pairs_apart stroke /\
    pairs_distinct stroke.
Proof.
  destruct (gesture_recorded p mods down moves mods' up)
    as (stroke & Hs & Hc & Hl & Hp).
  exists stroke.
  split; [exact Hs|]. split; [exact Hc|]. split; [exact Hl|].
  split; [now apply pairs_exceed_apart|].
  now apply pairs_apart_distinct, pairs_exceed_apart.
Qed.

Lemma gesture_appends_one_stroke_witness :
  exists stroke : list Vec2.t,
    g_strokes (globals (glfwPollEvents
                          (gesture 0 (at_px 400 300)
                                   [at_px 400 300; at_px 401 300] 0
                                   (at_px 401 300))
                          start_proc))
    = [stroke] /\
    (1 <= List.length stroke <= 3)%nat /\
    (forall d : Q,
        exact_squared_distance (ndc_800x600 401 300) (ndc_800x600 400 300)
        = Some d -> (0 < d)%Q).
Proof.
  destruct (gesture_appends_one_stroke
              start_proc 0 (at_px 400 300) [at_px 400 300; at_px 401 300] 0
              (at_px 401 300))
    as (stroke & Hs & _ & Hl & _ & Hd).
  exists stroke. split; [exact Hs|]. split; [exact Hl|].
  assert (E : stroke = [ndc_800x600 400 300; ndc_800x600 401 300]).
  { vm_compute in Hs. injection Hs as Hs. now subst stroke. }
  intros d. apply (Hd 0%nat); now rewrite E.
Defined.

(** C1, as the specification has it, fails: press at pixel (400, 300), move
    to (500, 300), move on by about 0.4 pixel. The third point is recorded,
    its binary32 squared distance from the second being 8796094 * 2^-43,
    one unit in the last place above the threshold 8796093 * 2^-43; the
    exact squared distance of the two recorded points is below the
    threshold. *)
Lemma gesture_neighbours_not_exactly_apart :
  let P1 := ndc_800x600 500 300 in
  let P2 := wnd_to_ndc initial_state (fst near_500_300) (snd near_500_300) in
  g_strokes (globals (glfwPollEvents
                        (gesture 0 (at_px 400 300)
                                 [at_px 500 300; near_500_300] 0 near_500_300)
                        start_proc))
  = [[ndc_800x600 400 300; P1; P2]] /\
  binary32_squared_distance P2 P1 = S754_finite false 8796094 (-43) /\
  threshold = S754_finite false 8796093 (-43) /\
  (exists d t : Q,
      exact_squared_distance P2 P1 = Some d /\
      Q_of_float threshold = Some t /\
      (d < t)%Q) /\
  ~ exactly_apart P2 P1.
Proof.
  cbv zeta. split; [vm_compute; reflexivity|].
  split; [vm_compute; reflexivity|].
  split; [reflexivity|].
  split.
  - eexists. eexists. split; [vm_compute; reflexivity|].
    split; [vm_compute; reflexivity|]. vm_compute. reflexivity.
  - unfold exactly_apart. vm_compute. discriminate.
Qed.

(** ** The distance test as an invariant *)

Lemma not_own_push_back {A : Type} (v : list A) (a : A) : v <> push_back v a.
Proof.
  intros H. apply (f_equal (@List.length A)) in H.
  unfold push_back in H. rewrite length_app in H. simpl in H. lia.
Qed.

(** A step that leaves the stroke in progress as it was appended nothing. *)
Ltac unchanged_stroke :=
  let H := fresh in intros H; now apply not_own_push_back in H.

Lemma mouse_button_cb_appends (button action mods : Z)
    (cursor : Double.t * Double.t) (st : State) (pt last : Vec2.t) :
  back (g_current st) = Some last ->
  g_current (mouse_button_cb button action mods cursor st)
    = push_back (g_current st) pt ->
  exceeds_threshold pt last = true.
Proof.
  intros Hb. unfold mouse_button_cb.
  destruct (button =? GLFW_MOUSE_BUTTON_LEFT);
    [|unchanged_stroke].
  destruct (action =? GLFW_PRESS).
  - destruct cursor as [mx my]. simpl.
    destruct (g_current st) as [|a v]; [discriminate|].
    unfold push_back. simpl. intros [= _ H]. now destruct v.
  - destruct (action =? GLFW_RELEASE);
      [|unchanged_stroke].
    destruct (g_current st) as [|a v]; [discriminate|].
    simpl. discriminate.
Qed.

Lemma cursor_pos_cb_appends (x y : Double.t) (st : State) (pt last : Vec2.t) :
  back (g_current st) = Some last ->
  g_current (cursor_pos_cb x y st) = push_back (g_current st) pt ->
  exceeds_threshold pt last = true.
Proof.
  intros Hb. unfold cursor_pos_cb.
  destruct (g_mouse_down st);
    [|unchanged_stroke].
  rewrite Hb.
  destruct (exceeds_threshold (wnd_to_ndc st x y) last) eqn:Hx;
    [|unchanged_stroke].
  simpl. unfold push_back. intros H.
  apply app_inv_head in H. now injection H as <-.
Qed.

Lemma perform_appends (p : Proc) (o : Op) (pt last : Vec2.t) :
  back (g_current (globals p)) = Some last ->
  g_current (globals (perform p o)) = push_back (g_current (globals p)) pt ->
  exceeds_threshold pt last = true.
Proof.
  intros Hb. destruct o as [[button action mods cursor|x y|w h|]|f|gl]; simpl.
  - now apply mouse_button_cb_appends.
  - now apply cursor_pos_cb_appends.
  - unchanged_stroke.
  - unchanged_stroke.
  - unfold key_commands.
    destruct (key_escape f), (key_c f); simpl; intros H;
      try (now apply not_own_push_back in H);
      destruct (g_current (globals p)); discriminate.
  - unchanged_stroke.
Qed.

Lemma mouse_button_cb_well_spaced (button action mods : Z)
    (cursor : Double.t * Double.t) (st : State) :
  well_spaced st -> well_spaced (mouse_button_cb button action mods cursor st).
Proof.
  intros [Hc Hs]. unfold mouse_button_cb.
  destruct (button =? GLFW_MOUSE_BUTTON_LEFT); [|now split].
  destruct (action =? GLFW_PRESS).
  - destruct cursor as [mx my]. split; simpl; [apply pairs_exceed_one|exact Hs].
  - destruct (action =? GLFW_RELEASE); [|now split].
    destruct (g_current st) as [|a v] eqn:E; split; simpl; try assumption.
    + apply pairs_exceed_nil.
    + unfold push_back. apply Forall_app. split; [exact Hs|].
      constructor; [exact Hc|constructor].
Qed.

Lemma cursor_pos_cb_well_spaced (x y : Double.t) (st : State) :
  well_spaced st -> well_spaced (cursor_pos_cb x y st).
Proof.
  intros [Hc Hs]. unfold cursor_pos_cb.
  destruct (g_mouse_down st); [|now split].
  destruct (back (g_current st)) as [last|] eqn:Hb.
  - destruct (exceeds_threshold (wnd_to_ndc st x y) last) eqn:Hx; [|now split].
    split; simpl; [|exact Hs].
    now apply pairs_exceed_push_back with (last := last).
  - apply back_None in Hb. split; simpl; [|exact Hs].
    rewrite Hb. apply pairs_exceed_one.
Qed.

Lemma perform_well_spaced (p : Proc) (o : Op) :
  well_spaced (globals p) -> well_spaced (globals (perform p o)).
Proof.
  intros H. destruct o as [[button action mods cursor|x y|w h|]|f|gl]; simpl.
  - now apply mouse_button_cb_well_spaced.
  - now apply cursor_pos_cb_well_spaced.
  - exact H.
  - exact H.
  - unfold key_commands.
    destruct (key_escape f), (key_c f); simpl; try exact H;
      (split; simpl; [apply pairs_exceed_nil|constructor]).
  - exact H.
Qed.

Lemma run_snoc (ops : list Op) (o : Op) :
  run (ops ++ [o]) = perform (run ops) o.
Proof. unfold run. now rewrite fold_left_app. Qed.

Lemma run_well_spaced (ops : list Op) : well_spaced (globals (run ops)).
Proof.
  induction ops as [|o ops IH] using rev_ind.
  - split; simpl; [apply pairs_exceed_nil|constructor].
  - rewrite run_snoc. now apply perform_well_spaced.
Qed.

Lemma glfwPollEvents_perform (evs : list Event) :
  forall p : Proc,
    glfwPollEvents evs p = fold_left perform (map Deliver evs) p.
Proof.
  unfold glfwPollEvents.
  induction evs as [|e evs IH]; intros p; [reflexivity|apply IH].
Qed.

Lemma frame_body_run (gl : GLObjects) (f : Frame) (ops : list Op) :
  frame_body gl f (run ops)
  = run (ops ++ map Deliver (events f) ++ [Keys f; Render gl]).
Proof.
  unfold frame_body, run.
  rewrite !fold_left_app, glfwPollEvents_perform. reflexivity.
Qed.

(** The states of the main loop, hence those [main] ends in, are among the
    runs. *)
Lemma main_loop_run (gl : GLObjects) (frames : list Frame) :
  forall ops : list Op,
    exists ops' : list Op, fst (main_loop gl frames (run ops)) = run ops'.
Proof.
  induction frames as [|f frames IH]; intros ops; simpl.
  - exists ops. now destruct (should_close (run ops)).
  - destruct (should_close (run ops)); [now exists ops|].
    rewrite frame_body_run. apply IH.
Qed.

Lemma dispatch_logged_after (pre : list gl_call) (p : Proc) (e : Event) :
  dispatch (logged_after pre p) e = logged_after pre (dispatch p e).
Proof.
  destruct e as [button action mods cursor|x y|w h|]; try reflexivity.
  unfold logged_after. simpl. now rewrite app_assoc.
Qed.

Lemma glfwPollEvents_logged_after (pre : list gl_call) (evs : list Event) :
  forall p : Proc,
    glfwPollEvents evs (logged_after pre p)
    = logged_after pre (glfwPollEvents evs p).
Proof.
  unfold glfwPollEvents.
  induction evs as [|e evs IH]; intros p; [reflexivity|].
  simpl. now rewrite dispatch_logged_after, IH.
Qed.

Lemma frame_body_logged_after (pre : list gl_call) (gl : GLObjects)
    (f : Frame) (p : Proc) :
  frame_body gl f (logged_after pre p) = logged_after pre (frame_body gl f p).
Proof.
  unfold frame_body. rewrite glfwPollEvents_logged_after.
  unfold key_commands, logged_after.
  destruct (key_escape f), (key_c f); simpl; now rewrite app_assoc.
Qed.

Lemma main_loop_logged_after (pre : list gl_call) (gl : GLObjects)
    (frames : list Frame) :
  forall p : Proc,
    main_loop gl frames (logged_after pre p)
    = (logged_after pre (fst (main_loop gl frames p)),
       snd (main_loop gl frames p)).
Proof.
  induction frames as [|f frames IH]; intros p; simpl.
  - now destruct (should_close p).
  - destruct (should_close p); [reflexivity|].
    now rewrite frame_body_logged_after, IH.
Qed.

(** The states [main] ends in are runs, after the calls of the set-up. *)
Lemma main_proc_run (env : Env) (frames : list Frame) :
  exists (pre : list gl_call) (ops : list Op),
    proc (main env frames) = logged_after pre (run ops).
Proof.
  unfold main.
  destruct (glfwInit_ok env); [|now exists [], []].
  destruct (glfwCreateWindow_ok env); [|now exists [], []].
  destruct (gladLoadGLLoader_ok env); [|now exists [], []].
  cbn [negb]. destruct (create_program env EmptyString) as [prog err].
  set (gl := {| program := prog; color_loc := color_loc (objects env);
                vao := vao (objects env); vbo := vbo (objects env) |}).
  destruct (main_loop_run gl frames []) as [ops Hops].
  exists (setup_calls gl), ops.
  change (loop_entry gl) with (logged_after (setup_calls gl) (run [])).
  rewrite main_loop_logged_after, Hops. reflexivity.
Qed.

(** C2, as the program has it. No step of the process (a press, a cursor
    move, any other event, a keyboard command, a frame) appends a point [pt]
    to a stroke in progress whose last recorded point is [last] unless [pt]
    is apart from [last]: the squared distance evaluated in binary32 is
    greater than 1e-6f, and the exact squared distance is positive. Hence in
    every state the process reaches, all neighbouring points of the stroke
    in progress and of every finished stroke are apart. The first point of
    a stroke is appended without any test: by a press of the left button,
    which empties the stroke in progress first whatever it held, and by a
    cursor move that finds the stroke empty while the button is held. *)
Theorem only_first_points_are_untested :
  (forall (p : Proc) (o : Op) (pt last : Vec2.t),
      back (g_current (globals p)) = Some last ->
      g_current (globals (perform p o)) = push_back (g_current (globals p)) pt ->
      apart pt last /\
      (forall d : Q, exact_squared_distance pt last = Some d -> (0 < d)%Q)) /\
  (forall ops : list Op,
      pairs_apart (g_current (globals (run ops))) /\
      Forall pairs_apart (g_strokes (globals (run ops))) /\
      pairs_distinct (g_current (globals (run ops))) /\
      Forall pairs_distinct (g_strokes (globals (run ops)))) /\
  (forall (p : Proc) (mods : Z) (cursor : Double.t * Double.t),
      g_current (globals (dispatch p (MouseButton GLFW_MOUSE_BUTTON_LEFT
                                                  GLFW_PRESS mods cursor)))
      = [wnd_to_ndc (globals p) (fst cursor) (snd cursor)]) /\
  (forall (p : Proc) (x y : Double.t),
      g_mouse_down (globals p) = true ->
      g_current (globals p) = [] ->
      g_current (globals (dispatch p (CursorPos x y)))
      = [wnd_to_ndc (globals p) x y]).
Proof.
  split; [|split; [|split]].
  - intros p o pt last Hb Ha.
    assert (H : apart pt last)
      by (apply exceeds_threshold_apart; now apply (perform_appends p o)).
    split; [exact H|]. intros d. now apply apart_distinct.
  - intros ops. destruct (run_well_spaced ops) as [Hc Hs].
    assert (Hs' : Forall pairs_apart (g_strokes (globals (run ops)))).
    { rewrite Forall_forall in *. intros s Hin.
      now apply pairs_exceed_apart, Hs. }
    split; [now apply pairs_exceed_apart|]. split; [exact Hs'|].
    split; [now apply pairs_apart_distinct, pairs_exceed_apart|].
    rewrite Forall_forall in *. intros s Hin.
    now apply pairs_apart_distinct, Hs'.
  - intros p mods [mx my]. reflexivity.
  - intros p x y Hd Hc. cbn [dispatch globals]. unfold cursor_pos_cb.
    now rewrite Hd, Hc.
Qed.

Lemma only_first_points_are_untested_witness :
  apart (ndc_800x600 401 300) (ndc_800x600 400 300) /\
  pairs_apart
    (g_current (globals (run [Deliver (press_at 400 300);
                              Deliver (move_to 401 300)]))) /\
  g_current (globals (dispatch (run [Deliver (press_at 400 300);
                                     Keys frame_clear])
                               (move_to 7 7)))
  = [ndc_800x600 7 7].
Proof.
  split; [|split].
  - apply (proj1 only_first_points_are_untested
             (run [Deliver (press_at 400 300)]) (Deliver (move_to 401 300))).
    + vm_compute. reflexivity.
    + vm_compute. reflexivity.
  - apply (proj1 (proj2 only_first_points_are_untested)).
  - apply (proj2 (proj2 (proj2 only_first_points_are_untested))
             (run [Deliver (press_at 400 300); Keys frame_clear])
             (Double.of_int 7) (Double.of_int 7)).
    + reflexivity.
    + reflexivity.
Defined.

(** C2, as the specification has it, fails at pointer-down. After a press
    and a release at pixel (400, 300), the point recorded last is that of
    (400, 300); a second press at the same pixel appends this very point to
    the stroke in progress, at squared distance zero from the point
    recorded before it. The same happens when the second press comes while
    the first stroke is still in progress. *)
Lemma press_appends_untested_point :
  let pt := ndc_800x600 400 300 in
  let p := run [Deliver (press_at 400 300); Deliver (release_at 400 300)] in
  let p' := run [Deliver (press_at 400 300)] in
  g_strokes (globals p) = [[pt]] /\
  g_current (globals (perform p (Deliver (press_at 400 300))))
  = push_back (g_current (globals p)) pt /\
  back (g_current (globals p')) = Some pt /\
  g_current (globals (perform p' (Deliver (press_at 400 300)))) = [pt] /\
  ~ apart pt pt /\
  binary32_squared_distance pt pt = S754_zero false /\
  (exists d : Q, exact_squared_distance pt pt = Some d /\ (d == 0)%Q) /\
  ~ exactly_apart pt pt.
Proof.
  cbv zeta. repeat split; try (vm_compute; reflexivity).
  - unfold apart. vm_compute. discriminate.
  - eexists. split; vm_compute; reflexivity.
  - unfold exactly_apart. vm_compute. discriminate.
Qed.

(** A move that stays within the threshold leaves the stroke as it is; one
    beyond it is recorded. *)
Example near_move_dropped :
  g_current (globals (run [Deliver (press_at 400 300);
                           Deliver (move_to 400 300);
                           Deliver (move_to 401 300);
                           Deliver (move_to 401 300)]))
  = [ndc_800x600 400 300; ndc_800x600 401 300].
Proof. vm_compute. reflexivity. Qed.

Example gesture_sample :
  g_strokes (globals (glfwPollEvents
                        (gesture 0 (at_px 400 300)
                                 [at_px 400 300; at_px 401 300; at_px 410 310]
                                 0 (at_px 410 310))
                        start_proc))
  = [[ndc_800x600 400 300; ndc_800x600 401 300; ndc_800x600 410 310]].
Proof. vm_compute. reflexivity. Qed.

(** ** Pointer-up *)

Lemma mouse_button_cb_no_empty (button action mods : Z)
    (cursor : Double.t * Double.t) (st : State) :
  ~ In [] (g_strokes st) ->
  ~ In [] (g_strokes (mouse_button_cb button action mods cursor st)).
Proof.
  intros H. unfold mouse_button_cb.
  destruct (button =? GLFW_MOUSE_BUTTON_LEFT); [|exact H].
  destruct (action =? GLFW_PRESS); [now destruct cursor|].
  destruct (action =? GLFW_RELEASE); [|exact H].
  destruct (g_current st) as [|a v]; [exact H|].
  simpl. unfold push_back. intros Hin. apply in_app_or in Hin.
  destruct Hin as [Hin|[Hin|[]]]; [now apply H|discriminate].
Qed.

Lemma cursor_pos_cb_strokes (x y : Double.t) (st : State) :
  g_strokes (cursor_pos_cb x y st) = g_strokes st.
Proof.
  unfold cursor_pos_cb. destruct (g_mouse_down st); [|reflexivity].
  destruct (back (g_current st)); [|reflexivity].
  now destruct (exceeds_threshold _ _).
Qed.

Lemma run_no_empty (ops : list Op) : ~ In [] (g_strokes (globals (run ops))).
Proof.
  induction ops as [|o ops IH] using rev_ind; [intros []|].
  rewrite run_snoc.
  destruct o as [[button action mods cursor|x y|w h|]|f|gl]; simpl.
  - now apply mouse_button_cb_no_empty.
  - now rewrite cursor_pos_cb_strokes.
  - exact IH.
  - exact IH.
  - unfold key_commands.
    destruct (key_escape f), (key_c f); simpl; try exact IH; intros [].
  - exact IH.
Qed.

(** C3. On release of the left button the stroke in progress, if it has at
    least one point, becomes the last finished stroke and the stroke in
    progress is empty afterwards; an empty stroke in progress adds nothing,
    a stroke of exactly one point is kept. In no state the process reaches
    does the list of finished strokes hold a stroke without points. *)
Theorem release_finishes_stroke :
  (forall (mods : Z) (cursor : Double.t * Double.t) (st : State),
      let st' :=
        mouse_button_cb GLFW_MOUSE_BUTTON_LEFT GLFW_RELEASE mods cursor st in
      g_current st' = [] /\
      g_mouse_down st' = false /\
      (g_current st <> [] -> g_strokes st' = g_strokes st ++ [g_current st]) /\
      (g_current st = [] -> g_strokes st' = g_strokes st) /\
      (forall pt, g_current st = [pt] ->
                  g_strokes st' = g_strokes st ++ [[pt]])) /\
  (forall ops : list Op, ~ In [] (g_strokes (globals (run ops)))).
Proof.
  split; [|exact run_no_empty].
  intros mods cursor st. unfold mouse_button_cb. simpl.
  destruct (g_current st) as [|a v] eqn:E; simpl; unfold push_back.
  - repeat split; try assumption; try reflexivity.
    + intros H. now contradiction H.
    + intros pt H. discriminate.
  - repeat split; try reflexivity.
    + intros H. discriminate.
    + intros pt [= -> ->]. reflexivity.
Qed.

Lemma release_finishes_stroke_witness :
  (let st := globals (run [Deliver (press_at 400 300)]) in
   g_strokes (mouse_button_cb GLFW_MOUSE_BUTTON_LEFT GLFW_RELEASE 0
                              (at_px 400 300) st)
   = g_strokes st ++ [[ndc_800x600 400 300]]) /\
  (g_strokes (mouse_button_cb GLFW_MOUSE_BUTTON_LEFT GLFW_RELEASE 0
                              (at_px 400 300) initial_state)
   = g_strokes initial_state) /\
  (let st := globals (run [Deliver (press_at 400 300);
                           Deliver (move_to 410 300)]) in
   g_strokes (mouse_button_cb GLFW_MOUSE_BUTTON_LEFT GLFW_RELEASE 0
                              (at_px 410 300) st)
   = g_strokes st ++ [g_current st]).
Proof.
  split; [|split].
  - apply (proj1 release_finishes_stroke 0 (at_px 400 300)
             (globals (run [Deliver (press_at 400 300)]))).
    vm_compute. reflexivity.
  - apply (proj1 release_finishes_stroke 0 (at_px 400 300) initial_state).
    reflexivity.
  - apply (proj1 release_finishes_stroke 0 (at_px 410 300)
             (globals (run [Deliver (press_at 400 300);
                            Deliver (move_to 410 300)]))).
    vm_compute. discriminate.
Defined.

(** ** The clear command *)

(** C5. When C is reported pressed, the keyboard step of the frame leaves
    both the list of finished strokes and the stroke in progress empty,
    whatever they held. *)
Theorem clear_command_empties_canvas
    (evs : list Event) (esc : bool) (p : Proc) :
  let p' := key_commands {| events := evs; key_escape := esc; key_c := true |} p in
  g_strokes (globals p') = [] /\ g_current (globals p') = [] /\
  g_strokes (clear_canvas (globals p)) = [] /\
  g_current (clear_canvas (globals p)) = [].
Proof. unfold key_commands. destruct esc; simpl; repeat split. Qed.

Example clear_sample :
  let p := run [Deliver (press_at 400 300); Deliver (move_to 410 300);
                Deliver (release_at 410 300); Deliver (press_at 10 10);
                Keys frame_clear] in
  g_strokes (globals p) = [] /\ g_current (globals p) = [].
Proof. vm_compute. split; reflexivity. Qed.

(** ** Resize *)

(** C6. A resize event stores the new width and height and issues
    [glViewport]; the finished strokes, the stroke in progress (hence every
    recorded point value), the mouse flag and the close flag are what they
    were. *)
Theorem resize_keeps_strokes (w h : Z) (p : Proc) :
  let p' := dispatch p (FramebufferSize w h) in
  g_win_w (globals p') = w /\
  g_win_h (globals p') = h /\
  g_strokes (globals p') = g_strokes (globals p) /\
  g_current (globals p') = g_current (globals p) /\
  g_mouse_down (globals p') = g_mouse_down (globals p) /\
  should_close p' = should_close p /\
  gl_log p' = gl_log p ++ [glViewport 0 0 w h].
Proof. simpl. repeat split. Qed.

Example resize_sample :
  let p := run [Deliver (press_at 400 300); Deliver (move_to 410 300)] in
  g_current (globals (dispatch p (FramebufferSize 1024 768)))
  = [ndc_800x600 400 300; ndc_800x600 410 300].
Proof. vm_compute. reflexivity. Qed.

(** ** Clearing while the button is held *)

(** C9. The clear command leaves the mouse flag as it is. If the button is
    held when the canvas is cleared, the next cursor move is recorded as the
    only point of the stroke in progress, whatever its position: no distance
    is tested. *)
Theorem clear_while_held_keeps_recording
    (evs : list Event) (esc : bool) (p : Proc) (x y : Double.t) :
  let p1 := key_commands {| events := evs; key_escape := esc; key_c := true |} p in
  g_mouse_down (globals p1) = g_mouse_down (globals p) /\
  (g_mouse_down (globals p) = true ->
   g_current (globals (dispatch p1 (CursorPos x y)))
   = [wnd_to_ndc (globals p) x y]).
Proof.
  unfold key_commands. destruct esc; simpl; (split; [reflexivity|]);
    intros H; unfold cursor_pos_cb; simpl; now rewrite H.
Qed.

(** After a press at (400, 300) and a clear, a move to the very same pixel is
    recorded, although its distance from the last recorded point is zero. *)
Lemma clear_while_held_keeps_recording_witness :
  let p := run [Deliver (press_at 400 300)] in
  g_current (globals (dispatch (key_commands frame_clear p)
                               (move_to 400 300)))
  = [ndc_800x600 400 300] /\
  exceeds_threshold (ndc_800x600 400 300) (ndc_800x600 400 300) = false.
Proof.
  split.
  - apply (proj2 (clear_while_held_keeps_recording
                    [] false (run [Deliver (press_at 400 300)])
                    (Double.of_int 400) (Double.of_int 300))).
    vm_compute. reflexivity.
  - vm_compute. reflexivity.
Defined.

(** ** The render pass *)

Lemma drawable_ltb (s : list Vec2.t) :
  (List.length s <? 2)%nat = negb (drawable s).
Proof.
  unfold drawable.
  destruct (Nat.ltb_spec (List.length s) 2), (Nat.leb_spec 2 (List.length s));
    simpl; try reflexivity; lia.
Qed.

Lemma draw_finished_filter (vbo : Z) (strokes : list (list Vec2.t)) :
  draw_finished vbo strokes = flat_map (draw_stroke vbo) (filter drawable strokes).
Proof.
  induction strokes as [|s rest IH]; [reflexivity|].
  simpl. rewrite drawable_ltb, IH.
  now destruct (drawable s).
Qed.

Lemma draw_pass_filter (vbo : Z) (st : State) :
  draw_pass vbo st = flat_map (draw_stroke vbo) (filter drawable (all_strokes st)).
Proof.
  unfold draw_pass, all_strokes, draw_current.
  rewrite draw_finished_filter, filter_app, flat_map_app.
  f_equal. cbn [filter].
  change (2 <=? List.length (g_current st))%nat with (drawable (g_current st)).
  destruct (drawable (g_current st)); cbn [flat_map]; now rewrite ?app_nil_r.
Qed.

Lemma filter_flat_map_draw_stroke (f : gl_call -> bool) (vbo : Z)
    (g : list Vec2.t -> gl_call) (l : list (list Vec2.t)) :
  (forall s, filter f (draw_stroke vbo s) = [g s]) ->
  filter f (flat_map (draw_stroke vbo) l) = map g l.
Proof.
  intros H. induction l as [|s l IH]; [reflexivity|].
  cbn [flat_map map]. rewrite filter_app, H, IH. reflexivity.
Qed.

(** C7. The draw step of a frame consists of one vertex upload followed by
    one connected-line draw call for each stroke with at least two points,
    the finished strokes in order and then the stroke in progress, and of
    nothing else: over the whole frame the draw calls and the uploads are in
    one-to-one correspondence with those strokes, and a stroke with fewer
    than two points contributes no call. *)
Theorem render_draws_strokes_of_two_points (gl : GLObjects) (st : State) :
  draw_pass (vbo gl) st
  = flat_map (draw_stroke (vbo gl)) (filter drawable (all_strokes st)) /\
  filter is_draw (render gl st)
  = map (fun s => glDrawArrays_LINE_STRIP 0 (GLsizei (Z.of_nat (List.length s))))
        (filter drawable (all_strokes st)) /\
  filter is_upload (render gl st)
  = map (fun s => glBufferData (Z.of_nat (List.length s) * sizeof_Vec2) s)
        (filter drawable (all_strokes st)).
Proof.
  split; [apply draw_pass_filter|].
  unfold render. rewrite !filter_app, draw_pass_filter. simpl.
  rewrite !app_nil_r.
  split; now apply filter_flat_map_draw_stroke.
Qed.

Example render_sample :
  let st := globals (run [Deliver (press_at 400 300); Deliver (move_to 410 300);
                          Deliver (release_at 410 300);
                          Deliver (press_at 10 10); Deliver (release_at 10 10);
                          Deliver (press_at 20 20)]) in
  List.length (all_strokes st) = 3%nat /\
  filter is_draw (render (mkGL 1 2 3 4) st) = [glDrawArrays_LINE_STRIP 0 2].
Proof. vm_compute. split; reflexivity. Qed.

(** ** Start-up failures *)

Lemma append_empty_r (a : string) : (a ++ EmptyString)%string = a.
Proof. induction a as [|c a IH]; simpl; [reflexivity|now rewrite IH]. Qed.

Lemma append_assoc (a b c : string) :
  ((a ++ b) ++ c)%string = (a ++ (b ++ c))%string.
Proof. induction a as [|x a IH]; simpl; [reflexivity|now rewrite IH]. Qed.

Lemma create_program_cerr (env : Env) :
  snd (create_program env EmptyString) = shader_diagnostics env.
Proof.
  unfold create_program, compile_shader, shader_diagnostics.
  destruct (vertex_compile_ok env), (fragment_compile_ok env), (link_ok env);
    simpl; rewrite ?append_empty_r;
    repeat (progress (rewrite ?append_assoc; simpl)); reflexivity.
Qed.

Lemma create_program_name (env : Env) (err : string) :
  fst (create_program env err) = program (objects env).
Proof. reflexivity. Qed.

Lemma main_started (env : Env) (frames : list Frame) :
  glfwInit_ok env = true ->
  glfwCreateWindow_ok env = true ->
  gladLoadGLLoader_ok env = true ->
  main env frames
  = {| cerr := shader_diagnostics env;
       exit_status :=
         if snd (main_loop (objects env) frames (loop_entry (objects env)))
         then Some 0 else None;
       callbacks_registered := true;
       proc := fst (main_loop (objects env) frames
                              (loop_entry (objects env))) |}.
Proof.
  intros H1 H2 H3. unfold main. rewrite H1, H2, H3. cbn [negb].
  pose proof (create_program_cerr env) as Hc.
  pose proof (create_program_name env EmptyString) as Hn.
  destruct (create_program env EmptyString) as [prog err]. simpl in Hc, Hn.
  subst prog err.
  replace {| program := program (objects env);
             color_loc := color_loc (objects env);
             vao := vao (objects env); vbo := vbo (objects env) |}
    with (objects env) by now destruct (objects env).
  now destruct (main_loop (objects env) frames (loop_entry (objects env))).
Qed.

Lemma main_loop_escape (gl : GLObjects) (frames : list Frame) :
  forall p : Proc, snd (main_loop gl (frames ++ [frame_escape]) p) = true.
Proof.
  induction frames as [|f frames IH]; intros p; simpl.
  - destruct (should_close p); reflexivity.
  - destruct (should_close p); [reflexivity|apply IH].
Qed.

(** C8. When the window cannot be created, or the GL function pointers
    cannot be loaded, [main] writes one line to the diagnostic stream and
    returns -1 at once: no callback is registered, no frame runs, no GL call
    is made. Shader compile and link errors are written to the diagnostic
    stream and nothing else changes: the callbacks are registered, the main
    loop runs exactly as it does without these errors, and [main] returns 0
    when the loop is left. *)
Theorem startup_failures_fatal_shader_errors_not
    (env : Env) (frames : list Frame) :
  (glfwInit_ok env = true -> glfwCreateWindow_ok env = false ->
   main env frames
   = {| cerr := ("Failed to create window" ++ endl)%string;
        exit_status := Some (-1);
        callbacks_registered := false; proc := start_proc |}) /\
  (glfwInit_ok env = true -> glfwCreateWindow_ok env = true ->
   gladLoadGLLoader_ok env = false ->
   main env frames
   = {| cerr := ("Failed to initialize GLAD" ++ endl)%string;
        exit_status := Some (-1);
        callbacks_registered := false; proc := start_proc |}) /\
  (glfwInit_ok env = true -> glfwCreateWindow_ok env = true ->
   gladLoadGLLoader_ok env = true ->
   cerr (main env frames) = shader_diagnostics env /\
   callbacks_registered (main env frames) = true /\
   exit_status (main env frames)
   = exit_status (main (without_shader_errors env) frames) /\
   proc (main env frames) = proc (main (without_shader_errors env) frames) /\
   exit_status (main env frames) <> Some (-1) /\
   exit_status (main env (frames ++ [frame_escape])) = Some 0).
Proof.
  split; [|split].
  - intros H1 H2. unfold main. now rewrite H1, H2.
  - intros H1 H2 H3. unfold main. now rewrite H1, H2, H3.
  - intros H1 H2 H3.
    rewrite !(main_started env) by assumption.
    rewrite (main_started (without_shader_errors env)) by assumption.
    simpl. repeat split.
    + now destruct (snd (main_loop (objects env) frames
                                   (loop_entry (objects env)))).
    + now rewrite main_loop_escape.
Qed.

Lemma startup_failures_fatal_shader_errors_not_witness :
  exit_status (main env_no_window [frame_escape]) = Some (-1) /\
  exit_status (main env_no_glad [frame_escape]) = Some (-1) /\
  (cerr (main env_bad_shaders [frame_clear])
   = ("Shader compile error: syntax error" ++ endl
      ++ "Program link error: no vertex stage" ++ endl)%string /\
   exit_status (main env_bad_shaders [frame_clear; frame_escape]) = Some 0).
Proof.
  split; [|split].
  - rewrite (proj1 (startup_failures_fatal_shader_errors_not
                      env_no_window [frame_escape])); reflexivity.
  - rewrite (proj1 (proj2 (startup_failures_fatal_shader_errors_not
                             env_no_glad [frame_escape]))); reflexivity.
  - destruct (proj2 (proj2 (startup_failures_fatal_shader_errors_not
                              env_bad_shaders [frame_clear])))
      as (Hc & _ & _ & _ & _ & He); try reflexivity.
    split; [rewrite Hc; reflexivity|exact He].
Defined.

(** ** The second Qt window *)

Lemma openSecondWindow_existing (w : Qt.MainWindow) (sw : nat) :
  Qt.secondWindow w = Some sw ->
  Qt.openSecondWindow w
  = {| Qt.secondWindow := Some sw; Qt.heap := Qt.heap w;
       Qt.calls := Qt.calls w ++ Qt.brought_up sw |}.
Proof. intros H. destruct w. simpl in H. subst. reflexivity. Qed.

Lemma openSecondWindow_first (w : Qt.MainWindow) :
  Qt.secondWindow w = None ->
  Qt.openSecondWindow w
  = {| Qt.secondWindow := Some (List.length (Qt.heap w));
       Qt.heap := Qt.heap w ++ [Qt.new_SecondWindow];
       Qt.calls := Qt.calls w ++ Qt.brought_up (List.length (Qt.heap w)) |}.
Proof. intros H. destruct w. simpl in H. subst. reflexivity. Qed.

Lemma clicks_existing (n : nat) :
  forall (w : Qt.MainWindow) (sw : nat),
    Qt.secondWindow w = Some sw ->
    Qt.clicks n w
    = {| Qt.secondWindow := Some sw; Qt.heap := Qt.heap w;
         Qt.calls := Qt.calls w ++ List.concat (repeat (Qt.brought_up sw) n) |}.
Proof.
  induction n as [|n IH]; intros w sw H.
  - simpl. rewrite app_nil_r. destruct w; simpl in *. now subst.
  - cbn [Qt.clicks]. rewrite (openSecondWindow_existing w sw H).
    rewrite (IH {| Qt.secondWindow := Some sw; Qt.heap := Qt.heap w;
                   Qt.calls := Qt.calls w ++ Qt.brought_up sw |} sw eq_refl).
    cbn [Qt.heap Qt.calls repeat List.concat].
    now rewrite <- app_assoc.
Qed.

Lemma clicks_fresh (n : nat) :
  Qt.clicks (S n) Qt.MainWindow_ctor
  = {| Qt.secondWindow := Some 0%nat; Qt.heap := [Qt.new_SecondWindow];
       Qt.calls := List.concat (repeat (Qt.brought_up 0) (S n)) |}.
Proof.
  change (Qt.clicks (S n) Qt.MainWindow_ctor)
    with (Qt.clicks n {| Qt.secondWindow := Some 0%nat;
                         Qt.heap := [Qt.new_SecondWindow];
                         Qt.calls := Qt.brought_up 0 |}).
  now rewrite (clicks_existing n) with (sw := 0%nat).
Qed.

(** C10. Whatever the number [n] of invocations of
    [MainWindow::openSecondWindow] on a freshly constructed main window, at
    most one [SecondWindow] exists afterwards (none for [n = 0], exactly one
    otherwise), and all [n] invocations showed, raised and activated that
    one instance. An invocation that finds the pointer null allocates the
    instance; an invocation that finds it set allocates nothing and keeps
    the pointer. *)
Theorem openSecondWindow_creates_at_most_one :
  (forall n : nat,
      let w := Qt.clicks n Qt.MainWindow_ctor in
      Qt.heap w = repeat Qt.new_SecondWindow (Nat.min n 1) /\
      (List.length (Qt.heap w) <= 1)%nat /\
      Qt.secondWindow w = (if (n =? 0)%nat then None else Some 0%nat) /\
      Qt.calls w = List.concat (repeat (Qt.brought_up 0) n)) /\
  (forall w : Qt.MainWindow,
      Qt.secondWindow w = None ->
      Qt.heap (Qt.openSecondWindow w) = Qt.heap w ++ [Qt.new_SecondWindow] /\
      Qt.secondWindow (Qt.openSecondWindow w)
      = Some (List.length (Qt.heap w))) /\
  (forall (w : Qt.MainWindow) (sw : nat),
      Qt.secondWindow w = Some sw ->
      Qt.heap (Qt.openSecondWindow w) = Qt.heap w /\
      Qt.secondWindow (Qt.openSecondWindow w) = Some sw /\
      Qt.calls (Qt.openSecondWindow w) = Qt.calls w ++ Qt.brought_up sw).
Proof.
  split; [|split].
  - intros [|n]; [cbn; repeat split; lia|].
    cbv zeta. rewrite clicks_fresh.
    cbn [Qt.heap Qt.calls Qt.secondWindow Nat.eqb].
    replace (Nat.min (S n) 1) with 1%nat by lia.
    repeat split. cbn. lia.
  - intros w H. now rewrite (openSecondWindow_first w H).
  - intros w sw H. now rewrite (openSecondWindow_existing w sw H).
Qed.

Lemma openSecondWindow_creates_at_most_one_witness :
  (let w := Qt.clicks 1 Qt.MainWindow_ctor in
   Qt.heap (Qt.openSecondWindow w) = Qt.heap w /\
   Qt.secondWindow (Qt.openSecondWindow w) = Some 0%nat) /\
  Qt.heap (Qt.openSecondWindow Qt.MainWindow_ctor) = [Qt.new_SecondWindow].
Proof.
  split.
  - destruct (proj2 (proj2 openSecondWindow_creates_at_most_one)
                (Qt.clicks 1 Qt.MainWindow_ctor) 0%nat eq_refl)
      as (Hh & Hp & _).
    split; [exact Hh|exact Hp].
  - apply (proj1 (proj2 openSecondWindow_creates_at_most_one)
             Qt.MainWindow_ctor eq_refl).
Defined.

Example three_clicks :
  let w := Qt.clicks 3 Qt.MainWindow_ctor in
  List.length (Qt.heap w) = 1%nat /\ List.length (Qt.calls w) = 9%nat.
Proof. vm_compute. split; reflexivity. Qed.

(** ** Coordinate conversion *)

Lemma digits2_pos_shift (p k : positive) :
  digits2_pos (Pos.iter xO p k) = (digits2_pos p + k)%positive.
Proof.
  induction k as [|k IH] using Pos.peano_ind.
  - simpl. now rewrite Pos.add_1_r.
  - rewrite Pos.iter_succ. simpl. rewrite IH. now rewrite Pos.add_succ_r.
Qed.

Lemma digits2_pos_size (p : positive) : digits2_pos p = Pos.size p.
Proof. induction p as [p IH|p IH|]; simpl; now rewrite ?IH. Qed.

Lemma digits2_pos_bound (p : positive) (n : Z) :
  0 <= n -> Zpos p < 2 ^ n -> Zpos (digits2_pos p) <= n.
Proof.
  intros Hn Hp. rewrite digits2_pos_size.
  pose proof (Pos.size_le p) as Hs.
  assert (H : 2 ^ Zpos (Pos.size p) <= 2 * Zpos p).
  { rewrite <- Pos2Z.inj_pow. change (2 * Zpos p) with (Zpos p~0).
    now apply Pos2Z.pos_le_pos. }
  assert (H' : 2 ^ Zpos (Pos.size p) < 2 ^ (n + 1)).
  { rewrite Z.pow_add_r by lia. change (2 ^ 1) with 2. lia. }
  apply Z.pow_lt_mono_r_iff in H'; lia.
Qed.

Lemma binary_round_aux_canonical (prec emax : Z) (s : bool) (m : positive)
    (e : Z) :
  canonical_mantissa prec emax m e = true ->
  e <= emax - prec ->
  binary_round_aux prec emax s (Zpos m) e loc_Exact = S754_finite s m e.
Proof.
  unfold canonical_mantissa. intros Hc He. apply Z.eqb_eq in Hc.
  unfold binary_round_aux, shr_fexp. cbn [Zdigits2 shr_record_of_loc].
  rewrite Hc, Z.sub_diag. cbn [shr shr_m loc_of_shr_record round_nearest_even].
  cbn [Zdigits2 shr_record_of_loc].
  rewrite Hc, Z.sub_diag. cbn [shr shr_m].
  apply Z.leb_le in He. now rewrite He.
Qed.

Lemma binary_round_small (s : bool) (p : positive) :
  Zpos p < 2 ^ 53 ->
  exists (m : positive) (e : Z),
    binary_round Double.prec Double.emax s p 0 = S754_finite s m e.
Proof.
  intros Hp.
  pose proof (digits2_pos_bound p 53 ltac:(lia) Hp) as Hd.
  unfold binary_round.
  assert (Hf : fexp Double.prec Double.emax (Zpos (digits2_pos p) + 0)
               = Zpos (digits2_pos p) - 53).
  { unfold fexp, emin, Double.prec, Double.emax. lia. }
  rewrite Hf. unfold shl_align.
  destruct (Zpos (digits2_pos p) - 53 - 0) as [|k|k] eqn:Hk; try lia.
  - exists p, 0. apply binary_round_aux_canonical.
    + unfold canonical_mantissa. apply Z.eqb_eq. rewrite Hf. lia.
    + unfold Double.prec, Double.emax. lia.
  - exists (Pos.iter xO p k), (Zpos (digits2_pos p) - 53).
    apply binary_round_aux_canonical.
    + unfold canonical_mantissa. apply Z.eqb_eq.
      rewrite digits2_pos_shift.
      unfold fexp, emin, Double.prec, Double.emax. lia.
    + unfold Double.prec, Double.emax. lia.
Qed.

Lemma of_int_finite (z : Z) :
  z <> 0 -> - 2 ^ 53 < z < 2 ^ 53 ->
  exists (m : positive) (e : Z), Double.of_int z = S754_finite (z <? 0) m e.
Proof.
  intros Hz Hr. unfold Double.of_int, binary_normalize.
  destruct z as [|p|p]; [congruence| |].
  - apply binary_round_small. lia.
  - apply binary_round_small. lia.
Qed.

Lemma div_eucl_multiple (m : positive) (k : Z) :
  Z.div_eucl (k * Zpos m) (Zpos m) = (k, 0).
Proof.
  assert (H : Z.div_eucl (k * Zpos m) (Zpos m)
              = ((k * Zpos m) / Zpos m, (k * Zpos m) mod Zpos m)).
  { unfold Z.div, Z.modulo. now destruct (Z.div_eucl _ _). }
  rewrite H, Z.div_mul, Z.mod_mul by lia. reflexivity.
Qed.

Lemma double_div_self (s : bool) (m : positive) (e : Z) :
  Double.div (S754_finite s m e) (S754_finite s m e) = Double.one.
Proof.
  unfold Double.div, SFdiv, SFdiv_core_binary.
  rewrite !Z.sub_diag.
  change (Z.min (fexp Double.prec Double.emax 0) 0) with (-53).
  change (0 - -53) with 53.
  cbv beta iota zeta.
  rewrite Z.shiftl_mul_pow2 by lia.
  rewrite (Z.mul_comm (Zpos m)), div_eucl_multiple.
  rewrite xorb_nilpotent.
  assert (Hl : new_location (Zpos m) 0 = loc_Exact).
  { unfold new_location. now destruct (Z.even (Zpos m)). }
  rewrite Hl. vm_compute. reflexivity.
Qed.

Lemma double_div_zero (s : bool) (m : positive) (e : Z) :
  Double.div Double.zero (S754_finite s m e) = S754_zero s.
Proof. now destruct s. Qed.

Lemma wnd_to_ndc_top_left (st : State) :
  g_win_w st <> 0 -> g_win_h st <> 0 ->
  int_range (g_win_w st) -> int_range (g_win_h st) ->
  wnd_to_ndc st Double.zero Double.zero = Vec2.mk Float.minus_one Float.one.
Proof.
  unfold int_range. intros Hw Hh Rw Rh. unfold wnd_to_ndc.
  destruct (of_int_finite (g_win_w st) Hw ltac:(lia)) as (mw & ew & ->).
  destruct (of_int_finite (g_win_h st) Hh ltac:(lia)) as (mh & eh & ->).
  rewrite !double_div_zero.
  now destruct (g_win_w st <? 0), (g_win_h st <? 0).
Qed.

Lemma wnd_to_ndc_bottom_right (st : State) :
  g_win_w st <> 0 -> g_win_h st <> 0 ->
  int_range (g_win_w st) -> int_range (g_win_h st) ->
  wnd_to_ndc st (Double.of_int (g_win_w st)) (Double.of_int (g_win_h st))
  = Vec2.mk Float.one Float.minus_one.
Proof.
  unfold int_range. intros Hw Hh Rw Rh. unfold wnd_to_ndc.
  destruct (of_int_finite (g_win_w st) Hw ltac:(lia)) as (mw & ew & ->).
  destruct (of_int_finite (g_win_h st) Hh ltac:(lia)) as (mh & eh & ->).
  rewrite !double_div_self. reflexivity.
Qed.

(** C4, as the program has it. [wnd_to_ndc] depends on nothing but the pixel
    position and the stored width and height. For every width and height
    other than zero, pixel (0, 0) is converted to (-1, 1) and pixel
    (width, height) to (1, -1), exactly. *)
Theorem wnd_to_ndc_corners (st : State) :
  int_range (g_win_w st) -> int_range (g_win_h st) ->
  g_win_w st <> 0 -> g_win_h st <> 0 ->
  wnd_to_ndc st Double.zero Double.zero = Vec2.mk Float.minus_one Float.one /\
  wnd_to_ndc st (Double.of_int (g_win_w st)) (Double.of_int (g_win_h st))
  = Vec2.mk Float.one Float.minus_one /\
  (forall (st' : State) (sx sy : Double.t),
      g_win_w st' = g_win_w st -> g_win_h st' = g_win_h st ->
      wnd_to_ndc st' sx sy = wnd_to_ndc st sx sy).
Proof.
  intros Rw Rh Hw Hh. split; [|split].
  - now apply wnd_to_ndc_top_left.
  - now apply wnd_to_ndc_bottom_right.
  - intros st' sx sy Ew Eh. unfold wnd_to_ndc. now rewrite Ew, Eh.
Qed.

Lemma wnd_to_ndc_corners_witness :
  wnd_to_ndc initial_state Double.zero Double.zero
  = Vec2.mk Float.minus_one Float.one /\
  wnd_to_ndc initial_state (Double.of_int 800) (Double.of_int 600)
  = Vec2.mk Float.one Float.minus_one.
Proof.
  destruct (wnd_to_ndc_corners initial_state) as (H1 & H2 & _);
    try (unfold int_range; simpl; lia).
  split; [exact H1|exact H2].
Defined.

(** C4, as the specification has it, fails once the framebuffer has been
    resized to 0 x 0 (a minimised window): both quotients are 0/0, and pixel
    (0, 0), which is also pixel (width, height), is converted to
    (NaN, NaN). *)
Lemma wnd_to_ndc_empty_viewport :
  let st := globals (run [Deliver (FramebufferSize 0 0)]) in
  int_range (g_win_w st) /\ int_range (g_win_h st) /\
  wnd_to_ndc st Double.zero Double.zero = Vec2.mk S754_nan S754_nan /\
  wnd_to_ndc st Double.zero Double.zero <> Vec2.mk Float.minus_one Float.one /\
  wnd_to_ndc st (Double.of_int (g_win_w st)) (Double.of_int (g_win_h st))
  <> Vec2.mk Float.one Float.minus_one.
Proof.
  cbv zeta. repeat split; try (vm_compute; congruence).
Qed.

(** The value used for [1e-6f] is a normal binary32 number within half a unit
    in the last place of 10^-6, and is what 1 / 1000000 rounds to. *)
Example epsilon_is_1e_6f :
  match epsilon with
  | S754_finite false m e =>
      e = -43 /\ 2 ^ 23 <= Zpos m < 2 ^ 24 /\
      2 * Z.abs (Zpos m * 10 ^ 6 - 2 ^ 43) <= 10 ^ 6
  | _ => False
  end /\
  epsilon = Float.div (Float.of_int 1) (Float.of_int 1000000).
Proof. vm_compute. repeat split; congruence. Qed.

(** * Further properties of the drawing program *)

(** ** The stroke in progress and the mouse flag *)

Lemma mouse_button_cb_idle_empty (button action mods : Z)
    (cursor : Double.t * Double.t) (st : State) :
  idle_empty st -> idle_empty (mouse_button_cb button action mods cursor st).
Proof.
  intros H. unfold mouse_button_cb.
  destruct (button =? GLFW_MOUSE_BUTTON_LEFT); [|exact H].
  destruct (action =? GLFW_PRESS).
  - destruct cursor as [mx my]. intros Hd. discriminate.
  - destruct (action =? GLFW_RELEASE); [|exact H].
    destruct (g_current st) as [|a v] eqn:E; intros _; reflexivity.
Qed.

Lemma cursor_pos_cb_idle (x y : Double.t) (st : State) :
  g_mouse_down st = false -> cursor_pos_cb x y st = st.
Proof. intros H. unfold cursor_pos_cb. now rewrite H. Qed.

Lemma cursor_pos_cb_mouse_down (x y : Double.t) (st : State) :
  g_mouse_down (cursor_pos_cb x y st) = g_mouse_down st.
Proof.
  unfold cursor_pos_cb. destruct (g_mouse_down st) eqn:E; [|exact E].
  destruct (back (g_current st)); [|exact E].
  now destruct (exceeds_threshold _ _).
Qed.

Lemma cursor_pos_cb_idle_empty (x y : Double.t) (st : State) :
  idle_empty st -> idle_empty (cursor_pos_cb x y st).
Proof.
  intros H Hd. rewrite cursor_pos_cb_mouse_down in Hd.
  rewrite (cursor_pos_cb_idle x y st Hd). now apply H.
Qed.

Lemma perform_idle_empty (p : Proc) (o : Op) :
  idle_empty (globals p) -> idle_empty (globals (perform p o)).
Proof.
  intros H. destruct o as [[button action mods cursor|x y|w h|]|f|gl]; simpl.
  - now apply mouse_button_cb_idle_empty.
  - now apply cursor_pos_cb_idle_empty.
  - exact H.
  - exact H.
  - unfold key_commands.
    destruct (key_escape f), (key_c f); simpl; try exact H; intros _;
      reflexivity.
  - exact H.
Qed.

Lemma run_idle_empty (ops : list Op) : idle_empty (globals (run ops)).
Proof.
  induction ops as [|o ops IH] using rev_ind; [intros _; reflexivity|].
  rewrite run_snoc. now apply perform_idle_empty.
Qed.

Lemma moves_idle (moves : list (Double.t * Double.t)) :
  forall p : Proc,
    g_mouse_down (globals p) = false ->
    glfwPollEvents (map (fun m => CursorPos (fst m) (snd m)) moves) p = p.
Proof.
  induction moves as [|m moves IH]; intros p H; [reflexivity|].
  simpl. rewrite (cursor_pos_cb_idle _ _ _ H).
  destruct p; simpl in *. now apply IH.
Qed.

(** X1. In every state the process reaches, the stroke in progress is empty
    whenever the left button is not held; cursor moves delivered in such a
    state, however many, change nothing at all. *)
Theorem button_up_nothing_recorded
    (ops : list Op) (moves : list (Double.t * Double.t)) :
  g_mouse_down (globals (run ops)) = false ->
  g_current (globals (run ops)) = [] /\
  glfwPollEvents (map (fun m => CursorPos (fst m) (snd m)) moves) (run ops)
  = run ops.
Proof.
  intros H. split; [now apply run_idle_empty|now apply moves_idle].
Qed.

Lemma button_up_nothing_recorded_witness :
  let ops := [Deliver (press_at 400 300); Deliver (move_to 410 300);
              Deliver (release_at 410 300)] in
  g_current (globals (run ops)) = [] /\
  glfwPollEvents (map (fun m => CursorPos (fst m) (snd m))
                      [at_px 10 10; at_px 500 20]) (run ops)
  = run ops.
Proof.
  apply (button_up_nothing_recorded
           [Deliver (press_at 400 300); Deliver (move_to 410 300);
            Deliver (release_at 410 300)]
           [at_px 10 10; at_px 500 20]).
  vm_compute. reflexivity.
Defined.

(** ** The stored viewport *)

Lemma mouse_button_cb_viewport (button action mods : Z)
    (cursor : Double.t * Double.t) (st : State) :
  g_win_w (mouse_button_cb button action mods cursor st) = g_win_w st /\
  g_win_h (mouse_button_cb button action mods cursor st) = g_win_h st.
Proof.
  unfold mouse_button_cb.
  destruct (button =? GLFW_MOUSE_BUTTON_LEFT); [|now split].
  destruct (action =? GLFW_PRESS); [now destruct cursor|].
  destruct (action =? GLFW_RELEASE); [|now split].
  now destruct (g_current st).
Qed.

Lemma cursor_pos_cb_viewport (x y : Double.t) (st : State) :
  g_win_w (cursor_pos_cb x y st) = g_win_w st /\
  g_win_h (cursor_pos_cb x y st) = g_win_h st.
Proof.
  unfold cursor_pos_cb. destruct (g_mouse_down st); [|now split].
  destruct (back (g_current st)); [|now split].
  now destruct (exceeds_threshold _ _).
Qed.

Lemma key_commands_viewport (f : Frame) (p : Proc) :
  g_win_w (globals (key_commands f p)) = g_win_w (globals p) /\
  g_win_h (globals (key_commands f p)) = g_win_h (globals p).
Proof. unfold key_commands. now destruct (key_escape f), (key_c f). Qed.

Lemma viewport_after_snoc (ops : list Op) (o : Op) :
  viewport_after (ops ++ [o])
  = match o with
    | Deliver (FramebufferSize w h) => (w, h)
    | _ => viewport_after ops
    end.
Proof. unfold viewport_after. now rewrite fold_left_app. Qed.

(** X2. At every moment the stored width and height are those of the most
    recent resize event, and 800 x 600 as long as there was none: no mouse
    event, keyboard command or frame ever changes them. *)
Theorem viewport_is_last_resize (ops : list Op) :
  (g_win_w (globals (run ops)), g_win_h (globals (run ops)))
  = viewport_after ops.
Proof.
  induction ops as [|o ops IH] using rev_ind; [reflexivity|].
  rewrite run_snoc, viewport_after_snoc.
  destruct o as [[button action mods cursor|x y|w h|]|f|gl]; simpl;
    try exact IH; try reflexivity.
  - destruct (mouse_button_cb_viewport button action mods cursor
                (globals (run ops))) as [-> ->]. exact IH.
  - destruct (cursor_pos_cb_viewport x y (globals (run ops))) as [-> ->].
    exact IH.
  - destruct (key_commands_viewport f (run ops)) as [-> ->]. exact IH.
Qed.

Example viewport_sample :
  let ops := [Deliver (FramebufferSize 1024 768); Deliver (press_at 5 5);
              Deliver (FramebufferSize 640 480); Keys frame_clear;
              Deliver (move_to 7 7)] in
  g_win_w (globals (run ops)) = 640 /\ g_win_h (globals (run ops)) = 480.
Proof. vm_compute. split; reflexivity. Qed.

(** ** The finished strokes *)

Lemma perform_strokes_grow (p : Proc) (o : Op) :
  is_clear o = false ->
  exists added : list (list Vec2.t),
    g_strokes (globals (perform p o)) = g_strokes (globals p) ++ added /\
    (List.length added <= if is_left_release o then 1 else 0)%nat /\
    ~ In [] added.
Proof.
  intros Hc.
  destruct o as [[button action mods cursor|x y|w h|]|f|gl]; simpl in *;
    try (exists []; rewrite app_nil_r; repeat split; auto; lia).
  - unfold mouse_button_cb.
    destruct (button =? GLFW_MOUSE_BUTTON_LEFT); simpl;
      [|exists []; rewrite app_nil_r; repeat split; auto].
    destruct (action =? GLFW_PRESS); simpl;
      [destruct cursor; exists []; simpl; rewrite app_nil_r;
       repeat split; auto|].
    destruct (action =? GLFW_RELEASE); simpl;
      [|exists []; rewrite app_nil_r; repeat split; auto].
    destruct (g_current (globals p)) as [|a v] eqn:E; simpl.
    + exists []. rewrite app_nil_r. repeat split; auto.
    + exists [a :: v]. unfold push_back. repeat split; auto.
      intros [H|[]]. discriminate.
  - exists []. rewrite app_nil_r, cursor_pos_cb_strokes. repeat split; auto.
  - exists []. rewrite app_nil_r. unfold key_commands. rewrite Hc.
    destruct (key_escape f); repeat split; auto.
Qed.

(** X3. As long as the canvas is not cleared, the list of finished strokes
    only grows at its end: whatever events, keyboard steps and frames
    follow, the strokes finished before stay where they are, unchanged; at
    most one stroke is added per release of the left button, and never an
    empty one. *)
Theorem finished_strokes_only_grow (p : Proc) (ops : list Op) :
  forallb (fun o => negb (is_clear o)) ops = true ->
  exists added : list (list Vec2.t),
    g_strokes (globals (fold_left perform ops p))
    = g_strokes (globals p) ++ added /\
    (List.length added <= List.length (filter is_left_release ops))%nat /\
    ~ In [] added.
Proof.
  revert p. induction ops as [|o ops IH]; intros p H.
  - exists []. simpl. rewrite app_nil_r. repeat split; auto.
  - simpl in H. apply andb_true_iff in H. destruct H as [Ho Hops].
    apply negb_true_iff in Ho.
    destruct (perform_strokes_grow p o Ho) as (a1 & E1 & L1 & N1).
    destruct (IH (perform p o) Hops) as (a2 & E2 & L2 & N2).
    exists (a1 ++ a2). cbn [fold_left filter].
    rewrite E2, E1, <- app_assoc. repeat split.
    + rewrite length_app. destruct (is_left_release o); simpl in *; lia.
    + intros Hin. apply in_app_or in Hin. tauto.
Qed.

Lemma finished_strokes_only_grow_witness :
  let p := run [Deliver (press_at 400 300); Deliver (release_at 400 300)] in
  exists added : list (list Vec2.t),
    g_strokes (globals (fold_left perform
                          [Deliver (press_at 10 10); Deliver (move_to 20 10);
                           Deliver (FramebufferSize 640 480);
                           Deliver (release_at 20 10)] p))
    = g_strokes (globals p) ++ added /\
    (List.length added <= 1)%nat /\ ~ In [] added.
Proof.
  apply (finished_strokes_only_grow
           (run [Deliver (press_at 400 300); Deliver (release_at 400 300)])
           [Deliver (press_at 10 10); Deliver (move_to 20 10);
            Deliver (FramebufferSize 640 480); Deliver (release_at 20 10)]).
  reflexivity.
Defined.

(** ** What a gesture records *)

Lemma subsequence_snoc_skip {A : Type} (s l : list A) (a : A) :
  subsequence s l -> subsequence s (l ++ [a]).
Proof.
  induction 1 as [|b s l _ IH|b s l _ IH]; simpl.
  - apply subsequence_skip, subsequence_nil.
  - now apply subsequence_skip.
  - now apply subsequence_keep.
Qed.

Lemma subsequence_snoc_keep {A : Type} (s l : list A) (a : A) :
  subsequence s l -> subsequence (s ++ [a]) (l ++ [a]).
Proof.
  induction 1 as [|b s l _ IH|b s l _ IH]; simpl.
  - apply subsequence_keep, subsequence_nil.
  - now apply subsequence_skip.
  - now apply subsequence_keep.
Qed.

Lemma wnd_to_ndc_viewport (st st' : State) (sx sy : Double.t) :
  g_win_w st' = g_win_w st -> g_win_h st' = g_win_h st ->
  wnd_to_ndc st' sx sy = wnd_to_ndc st sx sy.
Proof. intros Hw Hh. unfold wnd_to_ndc. now rewrite Hw, Hh. Qed.

Lemma move_tracing (st0 : State) (first : Vec2.t) (seen : list Vec2.t)
    (x y : Double.t) (st : State) :
  tracing st0 first seen st ->
  tracing st0 first (seen ++ [wnd_to_ndc st0 x y]) (cursor_pos_cb x y st).
Proof.
  intros (Hd & Hw & Hh & Hs & rest & Hc & Hsub).
  unfold cursor_pos_cb. rewrite Hd, (wnd_to_ndc_viewport st0 st x y Hw Hh).
  destruct (back (g_current st)) as [last|] eqn:Hb.
  - destruct (exceeds_threshold (wnd_to_ndc st0 x y) last).
    + repeat split; try assumption.
      exists (rest ++ [wnd_to_ndc st0 x y]). simpl. rewrite Hc. split.
      * reflexivity.
      * now apply subsequence_snoc_keep.
    + repeat split; try assumption.
      exists rest. split; [exact Hc|now apply subsequence_snoc_skip].
  - apply back_None in Hb. congruence.
Qed.

Lemma moves_tracing (st0 : State) (first : Vec2.t)
    (moves : list (Double.t * Double.t)) :
  forall (seen : list Vec2.t) (p : Proc),
    tracing st0 first seen (globals p) ->
    tracing st0 first
      (seen ++ map (fun m => wnd_to_ndc st0 (fst m) (snd m)) moves)
      (globals (glfwPollEvents
                  (map (fun m => CursorPos (fst m) (snd m)) moves) p)).
Proof.
  induction moves as [|m moves IH]; intros seen p H.
  - simpl. now rewrite app_nil_r.
  - simpl. change (?a :: ?l) with ([a] ++ l) at 1.
    rewrite app_assoc. apply IH. simpl. now apply move_tracing.
Qed.

(** X4. The stroke a gesture finishes starts with the point of the press and
    goes on with points of the cursor moves, each converted with the
    viewport the gesture began in, in the order they came; moves that failed
    the distance test are left out, nothing else is added. *)
Theorem gesture_stroke_is_subsequence
    (p : Proc) (mods : Z) (down : Double.t * Double.t)
    (moves : list (Double.t * Double.t)) (mods' : Z) (up : Double.t * Double.t) :
  let st := globals p in
  let ndc := fun m : Double.t * Double.t => wnd_to_ndc st (fst m) (snd m) in
  exists rest : list Vec2.t,
    g_strokes (globals (glfwPollEvents (gesture mods down moves mods' up) p))
    = g_strokes st ++ [ndc down :: rest] /\
    subsequence rest (map ndc moves).
Proof.
  cbv zeta. unfold gesture, glfwPollEvents. cbn [fold_left].
  rewrite fold_left_app. cbn [fold_left].
  set (p1 := dispatch p (MouseButton GLFW_MOUSE_BUTTON_LEFT GLFW_PRESS mods down)).
  assert (H1 : tracing (globals p) (wnd_to_ndc (globals p) (fst down) (snd down))
                 [] (globals p1)).
  { destruct down as [mx my]. repeat split.
    exists []. split; [reflexivity|apply subsequence_nil]. }
  pose proof (moves_tracing _ _ moves _ _ H1) as H2.
  unfold glfwPollEvents in H2. cbn [app] in H2.
  set (p2 := fold_left dispatch
               (map (fun m => CursorPos (fst m) (snd m)) moves) p1) in *.
  clearbody p2.
  destruct H2 as (_ & _ & _ & Hs & rest & Hc & Hsub).
  exists rest. split; [|exact Hsub].
  cbn [dispatch globals]. unfold mouse_button_cb.
  rewrite Z.eqb_refl. change (GLFW_RELEASE =? GLFW_PRESS) with false.
  cbv iota. rewrite Z.eqb_refl, Hc. cbn [g_strokes].
  unfold push_back. now rewrite Hs.
Qed.

Example gesture_subsequence_sample :
  g_strokes (globals (glfwPollEvents
                        (gesture 0 (at_px 400 300)
                                 [at_px 400 300; at_px 401 300; at_px 401 300]
                                 0 (at_px 0 0))
                        start_proc))
  = [[ndc_800x600 400 300; ndc_800x600 401 300]].
Proof. vm_compute. reflexivity. Qed.

(** ** Points that cannot follow one another *)

Lemma float_sub_self (a : Float.t) :
  Float.sub a a = S754_zero false \/ Float.sub a a = S754_nan.
Proof.
  destruct a as [s|s| |s m e].
  - left. now destruct s.
  - right. now destruct s.
  - now right.
  - left. unfold Float.sub, SFsub. now rewrite Z.sub_diag.
Qed.

Lemma float_sub_nan_l (a : Float.t) : Float.sub S754_nan a = S754_nan.
Proof. reflexivity. Qed.

Lemma float_sub_nan_r (a : Float.t) : Float.sub a S754_nan = S754_nan.
Proof. now destruct a. Qed.

Lemma float_add_nan_r (a : Float.t) : Float.add a S754_nan = S754_nan.
Proof. now destruct a. Qed.

Lemma is_nan_eq (a : Float.t) : is_nan a = true -> a = S754_nan.
Proof. now destruct a. Qed.

Lemma exceeds_threshold_self (p : Vec2.t) : exceeds_threshold p p = false.
Proof.
  unfold exceeds_threshold, squared_distance.
  destruct (float_sub_self (Vec2.x p)) as [-> | ->];
    destruct (float_sub_self (Vec2.y p)) as [-> | ->]; reflexivity.
Qed.

Lemma exceeds_threshold_nan (p last : Vec2.t) :
  has_nan p = true \/ has_nan last = true ->
  exceeds_threshold p last = false.
Proof.
  unfold has_nan, exceeds_threshold, squared_distance.
  intros [H|H]; apply orb_true_iff in H; destruct H as [H|H];
    apply is_nan_eq in H; rewrite H;
    rewrite ?float_sub_nan_l, ?float_sub_nan_r;
    change (Float.mul S754_nan S754_nan) with S754_nan;
    rewrite ?float_add_nan_r; reflexivity.
Qed.

Lemma run_stroke_pairs_exceed (ops : list Op) (s : list Vec2.t) :
  In s (all_strokes (globals (run ops))) -> pairs_exceed s.
Proof.
  destruct (run_well_spaced ops) as [Hc Hs].
  unfold all_strokes. intros H. apply in_app_or in H.
  destruct H as [H|[<-|[]]]; [|exact Hc].
  rewrite Forall_forall in Hs. now apply Hs.
Qed.

(** X5. No stroke, finished or in progress, ever holds the same point twice
    in a row: a move to the point recorded last has squared distance zero
    (or NaN) and fails the test. *)
Theorem no_point_twice_in_a_row
    (ops : list Op) (s : list Vec2.t) (i : nat) (q p : Vec2.t) :
  In s (all_strokes (globals (run ops))) ->
  nth_error s i = Some q ->
  nth_error s (S i) = Some p ->
  p <> q.
Proof.
  intros Hs Hq Hp ->.
  pose proof (run_stroke_pairs_exceed ops s Hs i q q Hq Hp) as H.
  rewrite exceeds_threshold_self in H. discriminate.
Qed.

Lemma no_point_twice_in_a_row_witness :
  ndc_800x600 401 300 <> ndc_800x600 400 300.
Proof.
  apply (no_point_twice_in_a_row
           [Deliver (press_at 400 300); Deliver (move_to 400 300);
            Deliver (move_to 401 300); Deliver (move_to 401 300)]
           [ndc_800x600 400 300; ndc_800x600 401 300] 0).
  - vm_compute. left. reflexivity.
  - reflexivity.
  - reflexivity.
Defined.

(** X6. A point with a NaN coordinate (as pixel column 0 gives in a viewport
    of width 0) is never recorded after another point, and nothing is ever
    recorded after it: once the point recorded last has a NaN coordinate,
    every cursor move leaves the state as it is, so a stroke that starts
    with such a point keeps that single point. *)
Theorem nan_point_stands_alone :
  (forall (st : State) (last : Vec2.t) (x y : Double.t),
      back (g_current st) = Some last -> has_nan last = true ->
      cursor_pos_cb x y st = st) /\
  (forall (ops : list Op) (s : list Vec2.t),
      In s (all_strokes (globals (run ops))) ->
      (forall (i : nat) (p : Vec2.t),
          nth_error s (S i) = Some p -> has_nan p = false) /\
      (forall p0 : Vec2.t,
          nth_error s 0 = Some p0 -> has_nan p0 = true -> s = [p0])).
Proof.
  split.
  - intros st last x y Hb Hn. unfold cursor_pos_cb.
    destruct (g_mouse_down st); [|reflexivity].
    rewrite Hb, exceeds_threshold_nan; [reflexivity|now right].
  - intros ops s Hs. pose proof (run_stroke_pairs_exceed ops s Hs) as Hp.
    split.
    + intros i p Hi. destruct (has_nan p) eqn:Hn; [|reflexivity].
      destruct (nth_error s i) as [q|] eqn:Hq.
      * pose proof (Hp i q p Hq Hi) as H.
        rewrite exceeds_threshold_nan in H; [discriminate|now left].
      * apply nth_error_None in Hq.
        assert (nth_error s (S i) <> None) as H by congruence.
        apply nth_error_Some in H. lia.
    + intros p0 H0 Hn. destruct s as [|a [|b s]]; try discriminate.
      * simpl in H0. congruence.
      * simpl in H0. injection H0 as ->.
        pose proof (Hp 0%nat p0 b eq_refl eq_refl) as H.
        rewrite exceeds_threshold_nan in H; [discriminate|now right].
Qed.

Lemma nan_point_stands_alone_witness :
  let ops := [Deliver (FramebufferSize 0 600); Deliver (press_at 0 300)] in
  cursor_pos_cb (Double.of_int 5) (Double.of_int 5) (globals (run ops))
  = globals (run ops) /\
  g_current (globals (run (ops ++ [Deliver (move_to 700 20)])))
  = [Vec2.mk S754_nan (S754_zero false)].
Proof.
  split.
  - apply (proj1 nan_point_stands_alone
             (globals (run [Deliver (FramebufferSize 0 600);
                            Deliver (press_at 0 300)]))
             (Vec2.mk S754_nan (S754_zero false))).
    + vm_compute. reflexivity.
    + reflexivity.
  - apply (proj2 (proj2 nan_point_stands_alone
                    ([Deliver (FramebufferSize 0 600);
                      Deliver (press_at 0 300)]
                     ++ [Deliver (move_to 700 20)])
                    (g_current
                       (globals (run ([Deliver (FramebufferSize 0 600);
                                       Deliver (press_at 0 300)]
                                      ++ [Deliver (move_to 700 20)]))))
                    ltac:(unfold all_strokes; apply in_or_app; right;
                          left; reflexivity))).
    + vm_compute. reflexivity.
    + reflexivity.
Defined.

(** ** More of the coordinate conversion *)

(** X7. The y axis is flipped and the x axis is not: for every width and
    height other than zero, the top-right pixel (width, 0) is converted to
    (1, 1) and the bottom-left pixel (0, height) to (-1, -1), exactly. *)
Theorem wnd_to_ndc_flips_y (st : State) :
  int_range (g_win_w st) -> int_range (g_win_h st) ->
  g_win_w st <> 0 -> g_win_h st <> 0 ->
  wnd_to_ndc st (Double.of_int (g_win_w st)) Double.zero
  = Vec2.mk Float.one Float.one /\
  wnd_to_ndc st Double.zero (Double.of_int (g_win_h st))
  = Vec2.mk Float.minus_one Float.minus_one.
Proof.
  unfold int_range. intros Rw Rh Hw Hh. unfold wnd_to_ndc.
  destruct (of_int_finite (g_win_w st) Hw ltac:(lia)) as (mw & ew & ->).
  destruct (of_int_finite (g_win_h st) Hh ltac:(lia)) as (mh & eh & ->).
  rewrite !double_div_self, !double_div_zero.
  now destruct (g_win_w st <? 0), (g_win_h st <? 0).
Qed.

Lemma wnd_to_ndc_flips_y_witness :
  wnd_to_ndc initial_state (Double.of_int 800) Double.zero
  = Vec2.mk Float.one Float.one /\
  wnd_to_ndc initial_state Double.zero (Double.of_int 600)
  = Vec2.mk Float.minus_one Float.minus_one.
Proof.
  apply (wnd_to_ndc_flips_y initial_state);
    unfold int_range; simpl; lia.
Defined.

Lemma binary_round_shifted (s : bool) (p : positive) :
  Zpos (digits2_pos p) < 53 ->
  binary_round Double.prec Double.emax s p 0
  = S754_finite s (Pos.iter xO p (Z.to_pos (53 - Zpos (digits2_pos p))))
                (Zpos (digits2_pos p) - 53).
Proof.
  intros Hd. unfold binary_round.
  assert (Hf : fexp Double.prec Double.emax (Zpos (digits2_pos p) + 0)
               = Zpos (digits2_pos p) - 53).
  { unfold fexp, emin, Double.prec, Double.emax. lia. }
  rewrite Hf. unfold shl_align.
  destruct (Zpos (digits2_pos p) - 53 - 0) as [|k|k] eqn:Hk; try lia.
  replace (53 - Zpos (digits2_pos p)) with (Zpos k) by lia.
  cbn [Z.to_pos].
  apply binary_round_aux_canonical.
  - unfold canonical_mantissa. apply Z.eqb_eq.
    rewrite digits2_pos_shift.
    unfold fexp, emin, Double.prec, Double.emax. lia.
  - unfold Double.prec, Double.emax. lia.
Qed.

Lemma binary_round_twice (s : bool) (p : positive) :
  Zpos (digits2_pos p) < 52 ->
  exists (m : positive) (e : Z),
    binary_round Double.prec Double.emax s p 0 = S754_finite s m e /\
    binary_round Double.prec Double.emax s p~0 0 = S754_finite s m (e + 1).
Proof.
  intros Hd.
  exists (Pos.iter xO p (Z.to_pos (53 - Zpos (digits2_pos p)))),
         (Zpos (digits2_pos p) - 53).
  split; [apply binary_round_shifted; lia|].
  rewrite binary_round_shifted by (cbn [digits2_pos]; lia).
  cbn [digits2_pos]. f_equal; [|lia].
  replace (Z.to_pos (53 - Zpos (digits2_pos p)))
    with (Pos.succ (Z.to_pos (53 - Zpos (Pos.succ (digits2_pos p))))) by lia.
  now rewrite Pos.iter_succ_r.
Qed.

Lemma of_int_twice (z : Z) :
  z <> 0 -> - 2 ^ 51 < z < 2 ^ 51 ->
  exists (m : positive) (e : Z),
    Double.of_int z = S754_finite (z <? 0) m e /\
    Double.of_int (2 * z) = S754_finite (z <? 0) m (e + 1).
Proof.
  intros Hz Hr. unfold Double.of_int, binary_normalize.
  destruct z as [|p|p]; [congruence| |].
  - apply binary_round_twice.
    pose proof (digits2_pos_bound p 51 ltac:(lia) ltac:(lia)). lia.
  - apply (binary_round_twice true).
    pose proof (digits2_pos_bound p 51 ltac:(lia) ltac:(lia)). lia.
Qed.

Lemma double_div_half (s : bool) (m : positive) (e : Z) :
  Double.div (S754_finite s m e) (S754_finite s m (e + 1))
  = S754_finite false 4503599627370496 (-53).
Proof.
  unfold Double.div, SFdiv, SFdiv_core_binary.
  replace (Zdigits2 (Zpos m) + e - (Zdigits2 (Zpos m) + (e + 1))) with (-1)
    by lia.
  replace (e - (e + 1)) with (-1) by lia.
  change (Z.min (fexp Double.prec Double.emax (-1)) (-1)) with (-54).
  change (-1 - -54) with 53.
  cbv beta iota zeta.
  rewrite Z.shiftl_mul_pow2 by lia.
  rewrite (Z.mul_comm (Zpos m)), div_eucl_multiple.
  rewrite xorb_nilpotent.
  assert (Hl : new_location (Zpos m) 0 = loc_Exact).
  { unfold new_location. now destruct (Z.even (Zpos m)). }
  rewrite Hl. vm_compute. reflexivity.
Qed.

(** X8. In a window of even width [2 a] and even height [2 b], both
    nonzero, the centre pixel [(a, b)] is converted to exactly (0, 0). *)
Theorem wnd_to_ndc_centre (st : State) (a b : Z) :
  int_range (g_win_w st) -> int_range (g_win_h st) ->
  g_win_w st = 2 * a -> g_win_h st = 2 * b ->
  a <> 0 -> b <> 0 ->
  wnd_to_ndc st (Double.of_int a) (Double.of_int b)
  = Vec2.mk (S754_zero false) (S754_zero false).
Proof.
  unfold int_range. intros Rw Rh Hw Hh Ha Hb. unfold wnd_to_ndc.
  rewrite Hw, Hh.
  destruct (of_int_twice a Ha ltac:(lia)) as (ma & ea & -> & ->).
  destruct (of_int_twice b Hb ltac:(lia)) as (mb & eb & -> & ->).
  rewrite !double_div_half. reflexivity.
Qed.

Lemma wnd_to_ndc_centre_witness :
  wnd_to_ndc initial_state (Double.of_int 400) (Double.of_int 300)
  = Vec2.mk (S754_zero false) (S754_zero false).
Proof.
  apply (wnd_to_ndc_centre initial_state 400 300);
    unfold int_range; simpl; lia.
Defined.

(** ** Leaving the main loop *)

Lemma dispatch_should_close (p : Proc) (e : Event) :
  should_close (dispatch p e) = should_close p || is_close e.
Proof.
  destruct e as [button action mods cursor|x y|w h|]; simpl;
    now rewrite ?orb_false_r, ?orb_true_r.
Qed.

Lemma glfwPollEvents_should_close (evs : list Event) :
  forall p : Proc,
    should_close (glfwPollEvents evs p)
    = should_close p || existsb is_close evs.
Proof.
  unfold glfwPollEvents.
  induction evs as [|e evs IH]; intros p; simpl.
  - now rewrite orb_false_r.
  - now rewrite IH, dispatch_should_close, orb_assoc.
Qed.

Lemma key_commands_should_close (f : Frame) (p : Proc) :
  should_close (key_commands f p) = should_close p || key_escape f.
Proof.
  unfold key_commands.
  destruct (key_escape f), (key_c f); simpl;
    now rewrite ?orb_false_r, ?orb_true_r.
Qed.

Lemma frame_body_should_close (gl : GLObjects) (f : Frame) (p : Proc) :
  should_close (frame_body gl f p) = should_close p || closing f.
Proof.
  unfold frame_body, closing. cbn [should_close].
  rewrite key_commands_should_close, glfwPollEvents_should_close.
  rewrite <- orb_assoc. f_equal. apply orb_comm.
Qed.

Lemma main_loop_quiet (gl : GLObjects) (frames : list Frame) :
  forall p : Proc,
    should_close p = false ->
    forallb (fun f => negb (closing f)) frames = true ->
    snd (main_loop gl frames p) = false.
Proof.
  induction frames as [|f frames IH]; intros p Hp Hq; simpl; rewrite Hp.
  - reflexivity.
  - simpl in Hq. apply andb_true_iff in Hq. destruct Hq as [Hf Hq].
    apply negb_true_iff in Hf.
    apply IH; [|exact Hq].
    now rewrite frame_body_should_close, Hp, Hf.
Qed.

(** X9. The program never stops by itself: as long as no frame sees ESC held
    down or a request to close the window, the main loop is not left and
    [main] does not return, however many frames pass and whatever else they
    deliver. *)
Theorem main_runs_until_asked_to_close (env : Env) (frames : list Frame) :
  glfwInit_ok env = true ->
  glfwCreateWindow_ok env = true ->
  gladLoadGLLoader_ok env = true ->
  forallb (fun f => negb (closing f)) frames = true ->
  exit_status (main env frames) = None.
Proof.
  intros H1 H2 H3 Hq. rewrite (main_started env frames H1 H2 H3).
  cbn [exit_status].
  now rewrite (main_loop_quiet (objects env) frames
                 (loop_entry (objects env)) eq_refl Hq).
Qed.

Lemma main_runs_until_asked_to_close_witness :
  exit_status
    (main env_bad_shaders
          [frame_clear;
           {| events := [press_at 3 4; move_to 30 40; release_at 30 40];
              key_escape := false; key_c := false |};
           frame_clear])
  = None.
Proof.
  apply main_runs_until_asked_to_close; reflexivity.
Defined.

Lemma main_loop_closing (gl : GLObjects) (f : Frame) (rest : list Frame)
    (p : Proc) :
  should_close p = false -> closing f = true ->
  main_loop gl (f :: rest) p = (frame_body gl f p, true).
Proof.
  intros Hp Hf. cbn [main_loop]. rewrite Hp.
  assert (H : should_close (frame_body gl f p) = true)
    by now rewrite frame_body_should_close, Hp, Hf.
  destruct rest; cbn [main_loop]; now rewrite H.
Qed.

Lemma main_loop_after_closing (gl : GLObjects) (f : Frame)
    (rest : list Frame) (before : list Frame) :
  closing f = true ->
  forall p : Proc,
    main_loop gl (before ++ f :: rest) p = main_loop gl (before ++ [f]) p.
Proof.
  intros Hf. induction before as [|b before IH]; intros p.
  - cbn [app]. destruct (should_close p) eqn:Hp.
    + cbn [main_loop]. now rewrite Hp.
    + now rewrite !main_loop_closing.
  - cbn [app main_loop]. destruct (should_close p); [reflexivity|apply IH].
Qed.

(** X10. The close flag is tested at the top of the loop only: the frame in
    which ESC is held down or the window is asked to close is completed,
    its keyboard commands and its rendering included, and it is the last;
    frames after it never run and [main] returns 0. *)
Theorem closing_frame_is_the_last
    (env : Env) (gl : GLObjects) (before : list Frame) (f : Frame)
    (rest : list Frame) (p : Proc) :
  closing f = true ->
  (should_close p = false ->
   main_loop gl (f :: rest) p = (frame_body gl f p, true)) /\
  main_loop gl (before ++ f :: rest) p = main_loop gl (before ++ [f]) p /\
  (glfwInit_ok env = true -> glfwCreateWindow_ok env = true ->
   gladLoadGLLoader_ok env = true ->
   main env (before ++ f :: rest) = main env (before ++ [f]) /\
   exit_status (main env (before ++ f :: rest)) = Some 0).
Proof.
  intros Hf. split; [|split].
  - intros Hp. now apply main_loop_closing.
  - now apply main_loop_after_closing.
  - intros H1 H2 H3. rewrite !(main_started env _ H1 H2 H3).
    rewrite (main_loop_after_closing (objects env) f rest before Hf).
    split; [reflexivity|]. cbn [exit_status].
    assert (H : snd (main_loop (objects env) (before ++ [f])
                               (loop_entry (objects env))) = true).
    { clear H1 H2 H3. generalize (loop_entry (objects env)).
      induction before as [|b before IH]; intros q; cbn [app main_loop].
      - destruct (should_close q) eqn:Hq; [reflexivity|].
        now rewrite frame_body_should_close, Hq, Hf.
      - destruct (should_close q); [reflexivity|apply IH]. }
    now rewrite H.
Qed.

Lemma closing_frame_is_the_last_witness :
  let f := {| events := [press_at 3 4; WindowClose; move_to 30 40];
              key_escape := false; key_c := false |} in
  main env_ok ([frame_clear] ++ f :: [frame_clear; frame_clear])
  = main env_ok ([frame_clear] ++ [f]) /\
  exit_status (main env_ok ([frame_clear] ++ f :: [frame_clear; frame_clear]))
  = Some 0.
Proof.
  apply (proj2 (proj2 (closing_frame_is_the_last
                         env_ok (objects env_ok) [frame_clear]
                         {| events := [press_at 3 4; WindowClose;
                                       move_to 30 40];
                            key_escape := false; key_c := false |}
                         [frame_clear; frame_clear] start_proc eq_refl)));
    reflexivity.
Defined.

(** ** What [main] returns and reports *)

(** X11. [main] returns -1 exactly when glfwInit, the creation of the window
    or the loading of the GL functions fails, and then whatever the frames
    would have been; it never returns anything but -1 or 0. A failure of
    glfwInit is reported on its own line and hides the later steps. *)
Theorem main_exit_status (env : Env) (frames : list Frame) :
  (glfwInit_ok env = false ->
   main env frames
   = {| cerr := ("Failed to init GLFW" ++ endl)%string;
        exit_status := Some (-1);
        callbacks_registered := false; proc := start_proc |}) /\
  (exit_status (main env frames) = Some (-1) <->
   glfwInit_ok env && glfwCreateWindow_ok env && gladLoadGLLoader_ok env
   = false) /\
  (forall z : Z, exit_status (main env frames) = Some z -> z = 0 \/ z = -1).
Proof.
  split; [|split].
  - intros H. unfold main. now rewrite H.
  - destruct (glfwInit_ok env) eqn:H1;
      [destruct (glfwCreateWindow_ok env) eqn:H2;
       [destruct (gladLoadGLLoader_ok env) eqn:H3|]|].
    + rewrite (main_started env frames H1 H2 H3). cbn [exit_status andb].
      destruct (snd (main_loop (objects env) frames
                               (loop_entry (objects env))));
        split; discriminate.
    + unfold main. rewrite H1, H2, H3. now split.
    + unfold main. rewrite H1, H2. now split.
    + unfold main. rewrite H1. now split.
  - intros z.
    destruct (glfwInit_ok env) eqn:H1;
      [destruct (glfwCreateWindow_ok env) eqn:H2;
       [destruct (gladLoadGLLoader_ok env) eqn:H3|]|].
    + rewrite (main_started env frames H1 H2 H3). cbn [exit_status].
      destruct (snd (main_loop (objects env) frames
                               (loop_entry (objects env))));
        [intros [= <-]; now left|discriminate].
    + unfold main. rewrite H1, H2, H3. intros [= <-]. now right.
    + unfold main. rewrite H1, H2. intros [= <-]. now right.
    + unfold main. rewrite H1. intros [= <-]. now right.
Qed.

Lemma main_exit_status_witness :
  cerr (main env_no_glfw [frame_escape])
  = ("Failed to init GLFW" ++ endl)%string /\
  exit_status (main env_no_glfw [frame_escape]) = Some (-1) /\
  (0 = 0 \/ 0 = -1).
Proof.
  split; [|split].
  - rewrite (proj1 (main_exit_status env_no_glfw [frame_escape]) eq_refl).
    reflexivity.
  - apply (proj1 (proj2 (main_exit_status env_no_glfw [frame_escape]))).
    reflexivity.
  - apply (proj2 (proj2 (main_exit_status env_ok [frame_escape])) 0).
    reflexivity.
Defined.

(** X12. After a successful start-up the diagnostic stream is empty exactly
    when the vertex shader, the fragment shader and the link all succeeded:
    every failed step leaves a line, no successful step does. *)
Theorem silent_start_means_good_shaders (env : Env) (frames : list Frame) :
  glfwInit_ok env = true ->
  glfwCreateWindow_ok env = true ->
  gladLoadGLLoader_ok env = true ->
  (cerr (main env frames) = EmptyString <->
   vertex_compile_ok env && fragment_compile_ok env && link_ok env = true).
Proof.
  intros H1 H2 H3. rewrite (main_started env frames H1 H2 H3).
  cbn [cerr]. unfold shader_diagnostics.
  destruct (vertex_compile_ok env), (fragment_compile_ok env), (link_ok env);
    simpl; split; intros H; try reflexivity; discriminate.
Qed.

Lemma silent_start_means_good_shaders_witness :
  (cerr (main env_ok [frame_clear]) = EmptyString <->
   vertex_compile_ok env_ok && fragment_compile_ok env_ok && link_ok env_ok
   = true) /\
  cerr (main env_bad_shaders [frame_clear]) <> EmptyString.
Proof.
  split.
  - apply (silent_start_means_good_shaders env_ok [frame_clear]);
      reflexivity.
  - intros H.
    apply (silent_start_means_good_shaders env_bad_shaders [frame_clear])
      in H; try reflexivity.
    discriminate.
Defined.

(** ** Frames *)

Lemma draw_pass_clear_canvas (vbo : Z) (st : State) :
  draw_pass vbo (clear_canvas st) = [].
Proof. reflexivity. Qed.

(** X13. In a frame in which C is held down no stroke is drawn at all, not
    even one that the events of this very frame started or finished: the
    events are handled first, the canvas is cleared next, and the frame
    consists of the fixed GL calls only. *)
Theorem clear_frame_draws_nothing (gl : GLObjects) (f : Frame) (p : Proc) :
  key_c f = true ->
  gl_log (frame_body gl f p)
  = gl_log (glfwPollEvents (events f) p) ++ empty_frame_calls gl /\
  g_strokes (globals (frame_body gl f p)) = [] /\
  g_current (globals (frame_body gl f p)) = [].
Proof.
  intros Hc. unfold frame_body, key_commands. rewrite Hc.
  destruct (key_escape f); cbn [gl_log globals]; repeat split.
Qed.

Lemma clear_frame_draws_nothing_witness :
  let f := {| events := [press_at 3 4; move_to 30 40; release_at 30 40;
                         press_at 50 50; move_to 60 60];
              key_escape := false; key_c := true |} in
  gl_log (frame_body (mkGL 1 2 3 4) f start_proc)
  = empty_frame_calls (mkGL 1 2 3 4).
Proof.
  apply (proj1 (clear_frame_draws_nothing (mkGL 1 2 3 4)
                  {| events := [press_at 3 4; move_to 30 40; release_at 30 40;
                                press_at 50 50; move_to 60 60];
                     key_escape := false; key_c := true |}
                  start_proc eq_refl)).
Defined.

(** ** Mouse events that do nothing *)

(** X14. Mouse events that are not a press or release of the left button
    (other buttons, key-repeat actions) never change anything; and in a
    state the process reaches with the button up, a release of the left
    button (one whose press was never seen) changes nothing either. *)
Theorem spurious_mouse_events_ignored :
  (forall (button action mods : Z) (cursor : Double.t * Double.t) (st : State),
      button <> GLFW_MOUSE_BUTTON_LEFT \/
      (action <> GLFW_PRESS /\ action <> GLFW_RELEASE) ->
      mouse_button_cb button action mods cursor st = st) /\
  (forall (ops : list Op) (mods : Z) (cursor : Double.t * Double.t),
      g_mouse_down (globals (run ops)) = false ->
      mouse_button_cb GLFW_MOUSE_BUTTON_LEFT GLFW_RELEASE mods cursor
                      (globals (run ops))
      = globals (run ops)).
Proof.
  split.
  - intros button action mods cursor st H. unfold mouse_button_cb.
    destruct (Z.eqb_spec button GLFW_MOUSE_BUTTON_LEFT) as [Eb|Nb];
      [|reflexivity].
    destruct H as [H|[Hp Hr]]; [contradiction|].
    destruct (Z.eqb_spec action GLFW_PRESS); [contradiction|].
    destruct (Z.eqb_spec action GLFW_RELEASE); [contradiction|reflexivity].
  - intros ops mods cursor Hd.
    pose proof (run_idle_empty ops Hd) as Hc.
    unfold mouse_button_cb. simpl. rewrite Hc.
    destruct (globals (run ops)); simpl in *. now subst.
Qed.

Lemma spurious_mouse_events_ignored_witness :
  let st := globals (run [Deliver (press_at 3 4); Deliver (move_to 30 40)]) in
  mouse_button_cb 1 GLFW_PRESS 0 (at_px 50 50) st = st /\
  mouse_button_cb GLFW_MOUSE_BUTTON_LEFT 2 0 (at_px 50 50) st = st /\
  mouse_button_cb GLFW_MOUSE_BUTTON_LEFT GLFW_RELEASE 0 (at_px 50 50)
                  (globals (run [Deliver (move_to 30 40)]))
  = globals (run [Deliver (move_to 30 40)]).
Proof.
  split; [|split].
  - apply (proj1 spurious_mouse_events_ignored). left. discriminate.
  - apply (proj1 spurious_mouse_events_ignored). right. split; discriminate.
  - apply (proj2 spurious_mouse_events_ignored [Deliver (move_to 30 40)]).
    reflexivity.
Defined.

(** ** Uploads and draw counts *)

Lemma GLsizei_small (n : Z) : 0 <= n < 2 ^ 31 -> GLsizei n = n.
Proof.
  intros H. unfold GLsizei.
  rewrite Z.mod_small by lia. lia.
Qed.

(** X15. For a stroke of fewer than 2^31 points the draw call covers exactly
    the points uploaded just before it, 8 bytes each; the cast of the point
    count to a 32-bit integer first goes wrong at 2^31 points, where the
    count becomes negative. *)
Theorem draw_stroke_counts (vbo : Z) (s : list Vec2.t) :
  Z.of_nat (List.length s) < 2 ^ 31 ->
  draw_stroke vbo s
  = [glBindBuffer vbo;
     glBufferData (8 * Z.of_nat (List.length s)) s;
     glDrawArrays_LINE_STRIP 0 (Z.of_nat (List.length s))] /\
  GLsizei (2 ^ 31) = - 2 ^ 31.
Proof.
  intros H. split; [|reflexivity].
  unfold draw_stroke, sizeof_Vec2.
  rewrite GLsizei_small by lia. now rewrite Z.mul_comm.
Qed.

Lemma draw_stroke_counts_witness :
  draw_stroke 4 [ndc_800x600 400 300; ndc_800x600 410 300]
  = [glBindBuffer 4;
     glBufferData 16 [ndc_800x600 400 300; ndc_800x600 410 300];
     glDrawArrays_LINE_STRIP 0 2].
Proof.
  apply (proj1 (draw_stroke_counts
                  4 [ndc_800x600 400 300; ndc_800x600 410 300]
                  ltac:(simpl; lia))).
Defined.

(** ** The pointer to the second window *)

(** X16. [openSecondWindow] never calls through a null pointer and never
    touches a window that exists: from a state whose pointer is null or
    valid, the pointer afterwards refers to an allocated [SecondWindow] as
    its constructor builds it, [show], [raise] and [activateWindow] were
    called on that window in this order, and every window allocated before
    is where and what it was. *)
Theorem openSecondWindow_pointer_valid (w : Qt.MainWindow) :
  pointer_valid w ->
  exists sw : nat,
    Qt.secondWindow (Qt.openSecondWindow w) = Some sw /\
    nth_error (Qt.heap (Qt.openSecondWindow w)) sw
    = Some {| Qt.windowTitle := "Drugie okno"; Qt.width := 200;
              Qt.height := 100; Qt.label := "Hello World!" |} /\
    Qt.calls (Qt.openSecondWindow w)
    = Qt.calls w ++ [(sw, Qt.show); (sw, Qt.raise); (sw, Qt.activateWindow)] /\
    pointer_valid (Qt.openSecondWindow w) /\
    (forall i : nat,
        (i < List.length (Qt.heap w))%nat ->
        nth_error (Qt.heap (Qt.openSecondWindow w)) i
        = nth_error (Qt.heap w) i).
Proof.
  intros Hv. destruct (Qt.secondWindow w) as [sw|] eqn:E.
  - exists sw. rewrite (openSecondWindow_existing w sw E).
    cbn [Qt.secondWindow Qt.heap Qt.calls]. repeat split.
    + now apply Hv.
    + intros sw' [= <-]. now apply Hv.
  - exists (List.length (Qt.heap w)). rewrite (openSecondWindow_first w E).
    cbn [Qt.secondWindow Qt.heap Qt.calls].
    assert (Hn : nth_error (Qt.heap w ++ [Qt.new_SecondWindow])
                           (List.length (Qt.heap w))
                 = Some Qt.new_SecondWindow).
    { rewrite nth_error_app2 by lia. now rewrite Nat.sub_diag. }
    repeat split.
    + exact Hn.
    + intros sw' [= <-]. exact Hn.
    + intros i Hi. now rewrite nth_error_app1.
Qed.

Lemma openSecondWindow_pointer_valid_witness :
  exists sw : nat,
    Qt.secondWindow (Qt.openSecondWindow Qt.MainWindow_ctor) = Some sw /\
    nth_error (Qt.heap (Qt.openSecondWindow Qt.MainWindow_ctor)) sw
    = Some {| Qt.windowTitle := "Drugie okno"; Qt.width := 200;
              Qt.height := 100; Qt.label := "Hello World!" |}.
Proof.
  destruct (openSecondWindow_pointer_valid Qt.MainWindow_ctor)
    as (sw & H1 & H2 & _).
  - intros sw H. discriminate.
  - exists sw. split; [exact H1|exact H2].
Defined.

(** * The printer of numeric limits *)

Lemma length_append (a b : string) :
  String.length (a ++ b) = (String.length a + String.length b)%nat.
Proof. induction a as [|c a IH]; simpl; [reflexivity|now rewrite IH]. Qed.

Lemma length_spaces (n : nat) :
  String.length (NumericLimits.spaces n) = n.
Proof. induction n as [|n IH]; simpl; [reflexivity|now rewrite IH]. Qed.

Lemma length_setw (n : nat) (s : string) :
  String.length (NumericLimits.setw n s) = Nat.max n (String.length s).
Proof.
  unfold NumericLimits.setw. rewrite length_append, length_spaces. lia.
Qed.

Lemma length_setw_decimal (n : nat) :
  (n < 100)%nat ->
  String.length (NumericLimits.setw 2 (NumericLimits.decimal n)) = 2%nat.
Proof.
  intros H.
  do 100 (destruct n as [|n]; [reflexivity|]). lia.
Qed.

Lemma get_after (a : string) (c : ascii) (b : string) :
  String.get (String.length a) (a ++ String c b) = Some c.
Proof.
  change (String.length a) with (0 + String.length a)%nat.
  now rewrite <- append_correct2.
Qed.

(** X17. In the line [info_of_type] prints, the description is never cut:
    it is right-aligned in 18 columns when it fits and printed in full when
    it does not, so the colon is in column max(18, length of the
    description). For a type of fewer than 100 bytes and fewer than 100
    digits the two fields after it take two columns each: the separators
    follow 3 and 6 columns after the colon, and the sign text starts there.
    Hence all lines whose descriptions have at most 18 characters are
    aligned. *)
Theorem info_of_type_columns (T : NumericLimits.type_traits) (opis : string) :
  (NumericLimits.sizeof T < 100)%nat ->
  (NumericLimits.digits T < 100)%nat ->
  let line := NumericLimits.info_of_type T opis in
  let c := NumericLimits.colon_column opis in
  String.substring (c - String.length opis) (String.length opis) line = opis /\
  String.get c line = Some ":"%char /\
  String.get (c + 3) line = Some "|"%char /\
  String.get (c + 6) line = Some "|"%char.
Proof.
  intros Hs Hd. cbv zeta.
  unfold NumericLimits.info_of_type, NumericLimits.colon_column.
  set (f1 := NumericLimits.setw 18 opis).
  set (f2 := NumericLimits.setw 2 (NumericLimits.decimal (NumericLimits.sizeof T))).
  set (f3 := NumericLimits.setw 2 (NumericLimits.decimal (NumericLimits.digits T))).
  assert (L1 : String.length f1 = Nat.max 18 (String.length opis))
    by apply length_setw.
  assert (L2 : String.length f2 = 2%nat) by now apply length_setw_decimal.
  assert (L3 : String.length f3 = 2%nat) by now apply length_setw_decimal.
  split; [|split; [|split]].
  - unfold f1, NumericLimits.setw. rewrite append_assoc.
    replace (Nat.max 18 (String.length opis) - String.length opis)%nat
      with (String.length (NumericLimits.spaces (18 - String.length opis)))
      by (rewrite length_spaces; lia).
    generalize (NumericLimits.spaces (18 - String.length opis)) as pad.
    intros pad. induction pad as [|c pad IH]; simpl; [|exact IH].
    match goal with
    | |- String.substring 0 _ (opis ++ ?r)%string = _ => generalize r
    end.
    intros rest. clear. induction opis as [|c opis IH]; simpl.
    + now destruct rest.
    + now rewrite IH.
  - rewrite <- L1. apply get_after.
  - replace (f1 ++ ":" ++ f2 ++ "|" ++ f3 ++
             (if NumericLimits.is_signed T then "|sign|" else "|withoutsign|")
             ++ "[" ++ NumericLimits.min_text T ++ "," ++
             NumericLimits.max_text T ++ "]" ++ endl)%string
      with ((f1 ++ ":" ++ f2) ++
            String "|" (f3 ++
                        (if NumericLimits.is_signed T then "|sign|"
                         else "|withoutsign|")
                        ++ "[" ++ NumericLimits.min_text T ++ "," ++
                        NumericLimits.max_text T ++ "]" ++ endl))%string.
    + replace (Nat.max 18 (String.length opis) + 3)%nat
        with (String.length (f1 ++ ":" ++ f2)%string)
        by (rewrite !length_append, L1, L2; simpl; lia).
      apply get_after.
    + rewrite !append_assoc. reflexivity.
  - replace (f1 ++ ":" ++ f2 ++ "|" ++ f3 ++
             (if NumericLimits.is_signed T then "|sign|" else "|withoutsign|")
             ++ "[" ++ NumericLimits.min_text T ++ "," ++
             NumericLimits.max_text T ++ "]" ++ endl)%string
      with ((f1 ++ ":" ++ f2 ++ "|" ++ f3) ++
            String "|" ((if NumericLimits.is_signed T then "sign|"
                         else "withoutsign|")
                        ++ "[" ++ NumericLimits.min_text T ++ "," ++
                        NumericLimits.max_text T ++ "]" ++ endl))%string.
    + replace (Nat.max 18 (String.length opis) + 6)%nat
        with (String.length (f1 ++ ":" ++ f2 ++ "|" ++ f3)%string)
        by (rewrite !length_append, L1, L2, L3; simpl; lia).
      apply get_after.
    + rewrite !append_assoc. simpl. rewrite ?append_assoc. simpl.
      now destruct (NumericLimits.is_signed T).
Qed.

Lemma info_of_type_columns_witness :
  String.get 18 (NumericLimits.info_of_type NumericLimits.lp64_short
                                            "short int")
  = Some ":"%char /\
  String.get 28 (NumericLimits.info_of_type NumericLimits.lp64_unsigned_long
                                            "unsigned long long int")
  = Some "|"%char.
Proof.
  split.
  - apply (info_of_type_columns NumericLimits.lp64_short "short int");
      simpl; lia.
  - apply (info_of_type_columns NumericLimits.lp64_unsigned_long
                                "unsigned long long int");
      simpl; lia.
Defined.

Example info_of_type_sample :
  NumericLimits.info_of_type NumericLimits.lp64_short "short int"
  = ("         short int: 2|15|sign|[-32768,32767]" ++ endl)%string /\
  NumericLimits.info_of_type NumericLimits.lp64_unsigned_long
                             "unsigned long int"
  = (" unsigned long int: 8|64|withoutsign|[0,18446744073709551615]"
     ++ endl)%string.
Proof. vm_compute. split; reflexivity. Qed.

(** The log of [main] starts with the calls of the set-up. *)
Example main_log_sample :
  gl_log (proc (main env_ok [])) = setup_calls (objects env_ok) /\
  gl_log (proc (main env_ok [frame_escape]))
  = setup_calls (objects env_ok) ++ empty_frame_calls (objects env_ok).
Proof. vm_compute. split; reflexivity. Qed.
